(** * Pure-Infinite-Scroll: the scroll-boundary watcher of
      [src/infinite-scroll.ts], embedded and verified.

    The class [PureInfiniteScroll] listens to the scroll events of a container,
    raises [scrolledBottom] / [scrolledTop] once per approach of a boundary,
    watches the content container with a [MutationObserver] after each raise
    and, for the top boundary, rewrites [scrollTop] when the new content has
    arrived.

    The embedding passes the state explicitly.  A [World] holds the fields of
    the object, the part of the page the object reads and writes (the
    geometry of the container, the children of the content container, the
    mutation observers that are connected) and a trace of the calls the
    object makes, in program order.

    Pixel quantities ([scrollTop], [scrollHeight], [clientHeight],
    [threshold]) are integers here.  Listeners registered with [on] are code
    of the caller: [emit] is recorded in the trace and the listeners' own
    effects on the page arrive as separate notifications. *)

From stdpp Require Import base decidable option list gmap.

Local Open Scope Z_scope.

(** ** The enumeration of events *)

Inductive PureInfiniteScrollEvent : Set :=
  | ScrolledBottom
  | ScrolledTop.

#[global] Instance PureInfiniteScrollEvent_eq_dec : EqDecision PureInfiniteScrollEvent.
Proof. solve_decision. Defined.

(** The other member of the enumeration. *)
Definition opposite (event : PureInfiniteScrollEvent) : PureInfiniteScrollEvent :=
  match event with
  | ScrolledBottom => ScrolledTop
  | ScrolledTop => ScrolledBottom
  end.

(** ** Objects keyed by the enumeration

    [isWaitingEvents] and [observerEvents] have the mapped type
    [{ [key in PureInfiniteScrollEvent]: A }]: exactly one entry per member. *)

Module Keyed.

Record t (A : Type) : Type := Build { bottom : A; top : A }.
Arguments Build {A} _ _.
Arguments bottom {A} _.
Arguments top {A} _.

Definition get {A} (o : t A) (event : PureInfiniteScrollEvent) : A :=
  match event with
  | ScrolledBottom => bottom o
  | ScrolledTop => top o
  end.

Definition put {A} (event : PureInfiniteScrollEvent) (a : A) (o : t A) : t A :=
  match event with
  | ScrolledBottom => Build a (top o)
  | ScrolledTop => Build (bottom o) a
  end.

End Keyed.

Arguments Keyed.get {A} o event : simpl never.
Arguments Keyed.put {A} event a o : simpl never.

(** ** The page *)

(** A node has an identity and a content; [isEqualNode] compares contents. *)
Record Node : Set := { nodeRef : nat; nodeContent : nat }.

(** A [MutationRecord] of type [childList]. *)
Record MutationRecord : Set := {
  addedNodes : list Node;
  removedNodes : list Node
}.

(** The scrollable element, as far as the class reads and writes it. *)
Record HTMLElement : Set := {
  scrollTop : Z;
  scrollHeight : Z;
  clientHeight : Z
}.

(** The page: the container, the child nodes of the content container, the
    mutation observers connected to the content container, each with the
    [event] its callback has captured, and the number of observers created. *)
Record Document : Type := {
  container : HTMLElement;
  childNodes : list Node;
  observers : gmap nat PureInfiniteScrollEvent;
  created : nat
}.

(** [a[i]] of JavaScript: [undefined] outside of the array. *)
Definition index {A} (a : list A) (i : Z) : option A :=
  if bool_decide (i < 0) then None else a !! Z.to_nat i.

Definition firstChild (d : Document) : option Node := head (childNodes d).
Definition lastChild (d : Document) : option Node := last (childNodes d).

(** [n.isEqualNode(other)], [other] possibly [undefined]. *)
Definition isEqualNode (n : Node) (other : option Node) : bool :=
  match other with
  | Some m => bool_decide (nodeContent n = nodeContent m)
  | None => false
  end.

(** ** The object *)

Record PureInfiniteScroll : Type := {
  threshold : Z;
  handleEvents : list PureInfiniteScrollEvent;
  isWaitingEvents : Keyed.t bool;
  observerEvents : Keyed.t (option nat);
  previousScrollHeight : Z;
  previousScrollTop : Z
}.

(** What the object does to its surroundings. *)
Inductive Effect : Set :=
  | Emit (event : PureInfiniteScrollEvent)
      (* this.emit(event) *)
  | Observe (o : nat) (event : PureInfiniteScrollEvent)
      (* this.observerEvents[event].observe(this.contentContainer, ...) *)
  | Disconnect (o : nat)
      (* this.observerEvents[event]?.disconnect() *)
  | StopWaiting (event : PureInfiniteScrollEvent)
      (* this.isWaitingEvents[event] = false *)
  | AssignScrollTop (v : Z).
      (* this.container.scrollTop = v *)

#[global] Instance Effect_eq_dec : EqDecision Effect.
Proof. solve_decision. Defined.

Record World : Type := {
  self : PureInfiniteScroll;
  document : Document;
  trace : list Effect
}.

(** *** Assignments *)

Definition assign_isWaitingEvents (event : PureInfiniteScrollEvent) (b : bool)
    (w : World) : World :=
  let s := self w in
  {| self := {| threshold := threshold s;
                handleEvents := handleEvents s;
                isWaitingEvents := Keyed.put event b (isWaitingEvents s);
                observerEvents := observerEvents s;
                previousScrollHeight := previousScrollHeight s;
                previousScrollTop := previousScrollTop s |};
     document := document w;
     trace := trace w |}.

Definition assign_observerEvents (event : PureInfiniteScrollEvent) (o : option nat)
    (w : World) : World :=
  let s := self w in
  {| self := {| threshold := threshold s;
                handleEvents := handleEvents s;
                isWaitingEvents := isWaitingEvents s;
                observerEvents := Keyed.put event o (observerEvents s);
                previousScrollHeight := previousScrollHeight s;
                previousScrollTop := previousScrollTop s |};
     document := document w;
     trace := trace w |}.

Definition assign_previous (height top : Z) (w : World) : World :=
  let s := self w in
  {| self := {| threshold := threshold s;
                handleEvents := handleEvents s;
                isWaitingEvents := isWaitingEvents s;
                observerEvents := observerEvents s;
                previousScrollHeight := height;
                previousScrollTop := top |};
     document := document w;
     trace := trace w |}.

Definition assign_threshold (t : Z) (w : World) : World :=
  let s := self w in
  {| self := {| threshold := t;
                handleEvents := handleEvents s;
                isWaitingEvents := isWaitingEvents s;
                observerEvents := observerEvents s;
                previousScrollHeight := previousScrollHeight s;
                previousScrollTop := previousScrollTop s |};
     document := document w;
     trace := trace w |}.

Definition assign_handleEvents (l : list PureInfiniteScrollEvent) (w : World) : World :=
  let s := self w in
  {| self := {| threshold := threshold s;
                handleEvents := l;
                isWaitingEvents := isWaitingEvents s;
                observerEvents := observerEvents s;
                previousScrollHeight := previousScrollHeight s;
                previousScrollTop := previousScrollTop s |};
     document := document w;
     trace := trace w |}.

Definition with_document (d : Document) (w : World) : World :=
  {| self := self w; document := d; trace := trace w |}.

Definition note (e : Effect) (w : World) : World :=
  {| self := self w; document := document w; trace := trace w ++ [e] |}.

(** [this.container.scrollTop = v] *)
Definition assign_scrollTop (v : Z) (w : World) : World :=
  let d := document w in
  note (AssignScrollTop v)
    (with_document
       {| container := {| scrollTop := v;
                          scrollHeight := scrollHeight (container d);
                          clientHeight := clientHeight (container d) |};
          childNodes := childNodes d;
          observers := observers d;
          created := created d |} w).

(** [new MutationObserver(callback)] followed by
    [observe(this.contentContainer, { childList: true })]: the observer is
    the next one of the page and is connected under the [event] that its
    callback has captured. *)
Definition connect (o : nat) (event : PureInfiniteScrollEvent) (w : World) : World :=
  let d := document w in
  note (Observe o event)
    (with_document
       {| container := container d;
          childNodes := childNodes d;
          observers := <[o := event]> (observers d);
          created := S (created d) |} w).

(** [o.disconnect()] *)
Definition disconnect (o : nat) (w : World) : World :=
  let d := document w in
  note (Disconnect o)
    (with_document
       {| container := container d;
          childNodes := childNodes d;
          observers := delete o (observers d);
          created := created d |} w).

(** ** The methods of the class *)

(** [constructor(container, contentContainer?, threshold?, handleEvents?)];
    [page] holds the container and the content container ([contentContainer
    ?? container]). *)
Definition new_PureInfiniteScroll (page : Document) (threshold : option Z)
    (handleEvents : option (list PureInfiniteScrollEvent)) : World :=
  {| self := {| threshold := default 0 threshold;
                handleEvents := default [ScrolledBottom; ScrolledTop] handleEvents;
                isWaitingEvents := Keyed.Build false false;
                observerEvents := Keyed.Build None None;
                previousScrollHeight := 0;
                previousScrollTop := 0 |};
     document := page;
     trace := [] |}.

(** [get isScrolledBottom()] *)
Definition isScrolledBottom (w : World) : bool :=
  let c := container (document w) in
  bool_decide (scrollHeight c - scrollTop c - clientHeight c ≤ threshold (self w)).

(** [get isScrolledTop()] *)
Definition isScrolledTop (w : World) : bool :=
  bool_decide (scrollTop (container (document w)) ≤ threshold (self w)).

(** [this.handleEvents.includes(event)] *)
Definition includes (l : list PureInfiniteScrollEvent) (event : PureInfiniteScrollEvent) : bool :=
  bool_decide (event ∈ l).

(** [waitForContentChanges(event)] *)
Definition waitForContentChanges (event : PureInfiniteScrollEvent) (w : World) : World :=
  let o := created (document w) in
  let w := assign_observerEvents event (Some o) w in
  connect o event w.

(** [emitEvent(event)] *)
Definition emitEvent (event : PureInfiniteScrollEvent) (w : World) : World :=
  if Keyed.get (isWaitingEvents (self w)) event
     || negb (includes (handleEvents (self w)) event)
  then w
  else
    let w := assign_isWaitingEvents event true w in
    let w := assign_previous (scrollHeight (container (document w)))
                             (scrollTop (container (document w))) w in
    let w := waitForContentChanges event w in
    note (Emit event) w.

(** [handleScroll()] *)
Definition handleScroll (w : World) : World :=
  let events :=
    (if isScrolledBottom w then [ScrolledBottom] else [])
    ++ (if isScrolledTop w then [ScrolledTop] else []) in
  foldl (λ w event, emitEvent event w) w events.

(** [handleContentChanges()] *)
Definition handleContentChanges (w : World) : World :=
  let newScrollHeight := scrollHeight (container (document w)) in
  let heightDifference := newScrollHeight - previousScrollHeight (self w) in
  assign_scrollTop (previousScrollTop (self w) + heightDifference) w.

(** How a call of the observer's callback ends. *)
Inductive Completion : Type :=
  | Returned (w : World)
  | TypeError.

(** [contentContainer.firstChild?.isEqualNode(mutation.addedNodes[0])];
    [undefined] counts as [false] in the condition that reads it. *)
Definition mutationStart (w : World) (mutation : MutationRecord) : bool :=
  match firstChild (document w) with
  | Some n => isEqualNode n (index (addedNodes mutation) 0)
  | None => false
  end.

(** [contentContainer.lastChild?.isEqualNode(
       mutation.addedNodes[mutation.addedNodes.length - 1])] *)
Definition mutationEnd (w : World) (mutation : MutationRecord) : bool :=
  match lastChild (document w) with
  | Some n =>
      isEqualNode n
        (index (addedNodes mutation) (Z.of_nat (length (addedNodes mutation)) - 1))
  | None => false
  end.

(** The condition of the callback's [if]. *)
Definition proceeds (event : PureInfiniteScrollEvent) (w : World)
    (mutation : MutationRecord) : bool :=
  (mutationStart w mutation && bool_decide (event = ScrolledTop))
  || (mutationEnd w mutation && bool_decide (event = ScrolledBottom)).

(** The block under the callback's [if]. *)
Definition proceed (event : PureInfiniteScrollEvent) (w : World) : World :=
  let w :=
    match Keyed.get (observerEvents (self w)) event with
    | Some o => disconnect o w
    | None => w
    end in
  let w := assign_observerEvents event None w in
  let w := note (StopWaiting event) (assign_isWaitingEvents event false w) in
  if bool_decide (event = ScrolledTop) then handleContentChanges w else w.

(** The callback given to [new MutationObserver] in
    [waitForContentChanges(event)], called with [mutations].  On an empty
    array [mutations[0]] is [undefined] and reading [addedNodes] throws. *)
Definition callback (event : PureInfiniteScrollEvent) (mutations : list MutationRecord)
    (w : World) : Completion :=
  match index mutations 0 with
  | None => TypeError
  | Some mutation =>
      if proceeds event w mutation then Returned (proceed event w) else Returned w
  end.

(** ** The surroundings

    What happens to the object between two of its own runs: the page changes
    under it, the caller assigns its public fields, and the host delivers a
    scroll event to the listener registered by the constructor or a batch of
    mutation records to a connected observer. *)
Inductive Notification : Type :=
  | Layout (c : HTMLElement)
  | Children (l : list Node)
  | SetThreshold (t : Z)
  | SetHandleEvents (l : list PureInfiniteScrollEvent)
  | Scroll
  | Mutations (o : nat) (mutations : list MutationRecord).

Definition relayout (c : HTMLElement) (w : World) : World :=
  let d := document w in
  with_document {| container := c; childNodes := childNodes d;
                   observers := observers d; created := created d |} w.

Definition rechild (l : list Node) (w : World) : World :=
  let d := document w in
  with_document {| container := container d; childNodes := l;
                   observers := observers d; created := created d |} w.

(** Only a connected observer is called; an exception thrown by the callback
    is reported by the host and the object is as the callback left it, which
    is untouched, for it throws before its first assignment. *)
Definition deliver (o : nat) (mutations : list MutationRecord) (w : World) : World :=
  match observers (document w) !! o with
  | Some event =>
      match callback event mutations w with
      | Returned w' => w'
      | TypeError => w
      end
  | None => w
  end.

Definition step (w : World) (n : Notification) : World :=
  match n with
  | Layout c => relayout c w
  | Children l => rechild l w
  | SetThreshold t => assign_threshold t w
  | SetHandleEvents l => assign_handleEvents l w
  | Scroll => handleScroll w
  | Mutations o mutations => deliver o mutations w
  end.

Definition run (w : World) (ns : list Notification) : World := foldl step w ns.

(** A page that nothing observes yet. *)
Definition page (c : HTMLElement) (l : list Node) : Document :=
  {| container := c; childNodes := l; observers := ∅; created := 0 |}.

(** ** Reading the trace *)

(** The events given to [emit], oldest first. *)
Definition raised (tr : list Effect) : list PureInfiniteScrollEvent :=
  omap (λ e, match e with Emit event => Some event | _ => None end) tr.

(** How many times [event] was given to [emit]. *)
Definition emitted (event : PureInfiniteScrollEvent) (tr : list Effect) : nat :=
  length (filter (λ e, e = event) (raised tr)).

(** The values assigned to [scrollTop], oldest first. *)
Definition writes (tr : list Effect) : list Z :=
  omap (λ e, match e with AssignScrollTop v => Some v | _ => None end) tr.

(** Reading a trace from a moment at which [event] is waiting or not
    ([waiting]): is [event] waiting at the end of it? *)
Fixpoint waiting_after (event : PureInfiniteScrollEvent) (waiting : bool)
    (tr : list Effect) : bool :=
  match tr with
  | [] => waiting
  | Emit e :: tr' =>
      waiting_after event (if bool_decide (e = event) then true else waiting) tr'
  | StopWaiting e :: tr' =>
      waiting_after event (if bool_decide (e = event) then false else waiting) tr'
  | _ :: tr' => waiting_after event waiting tr'
  end.

(** Is every [Emit event] of the trace met while [event] is not waiting, that
    is, is there a [StopWaiting event] between any two of them? *)
Fixpoint once_per_wait (event : PureInfiniteScrollEvent) (waiting : bool)
    (tr : list Effect) : bool :=
  match tr with
  | [] => true
  | Emit e :: tr' =>
      if bool_decide (e = event)
      then negb waiting && once_per_wait event true tr'
      else once_per_wait event waiting tr'
  | StopWaiting e :: tr' =>
      once_per_wait event (if bool_decide (e = event) then false else waiting) tr'
  | _ :: tr' => once_per_wait event waiting tr'
  end.

(** ** Vocabulary of the statements *)

(** The getter that [handleScroll] reads for [event]. *)
Definition near (event : PureInfiniteScrollEvent) (w : World) : bool :=
  match event with
  | ScrolledBottom => isScrolledBottom w
  | ScrolledTop => isScrolledTop w
  end.

(** [emitEvent(event)] goes past its guard. *)
Definition armed (event : PureInfiniteScrollEvent) (w : World) : bool :=
  negb (Keyed.get (isWaitingEvents (self w)) event)
  && includes (handleEvents (self w)) event.

(** A notification after which [event] is still not handled, if it was not. *)
Definition keeps_out (event : PureInfiniteScrollEvent) (n : Notification) : Prop :=
  match n with
  | SetHandleEvents l => event ∉ l
  | _ => True
  end.

(** The fields and the page agree: the connected observers are the ones the
    object holds, an event waits exactly when it holds one, and the
    observers to come are not connected yet. *)
Record consistent (w : World) : Prop := {
  connected_held : ∀ o event,
    observers (document w) !! o = Some event →
    Keyed.get (observerEvents (self w)) event = Some o;
  held_connected : ∀ o event,
    Keyed.get (observerEvents (self w)) event = Some o →
    observers (document w) !! o = Some event;
  waiting_held : ∀ event,
    Keyed.get (isWaitingEvents (self w)) event = true ↔
    Keyed.get (observerEvents (self w)) event ≠ None;
  fresh_free : ∀ o, (created (document w) ≤ o)%nat → observers (document w) !! o = None
}.

(** The trace tells whether [event] is waiting, and [emit] was given
    [event] once per wait. *)
Definition tracks (event : PureInfiniteScrollEvent) (w : World) : Prop :=
  once_per_wait event false (trace w) = true
  ∧ waiting_after event false (trace w) = Keyed.get (isWaitingEvents (self w)) event.

(** How many times the callback of the observer of [event] has reset the
    waiting flag of [event]. *)
Definition stopped (event : PureInfiniteScrollEvent) (tr : list Effect) : nat :=
  length (filter (λ e, e = StopWaiting event) tr).

(** The raises, the resets and the writes of the trace add up: an event was
    raised once per reset of its flag, and once more if it is waiting; and
    [scrollTop] was assigned once per reset of the top event's flag. *)
Definition balanced (w : World) : Prop :=
  (∀ event,
      emitted event (trace w)
      = (stopped event (trace w)
         + Nat.b2n (Keyed.get (isWaitingEvents (self w)) event))%nat)
  ∧ length (writes (trace w)) = stopped ScrolledTop (trace w).

(** A notification that is not a batch of mutation records. *)
Definition no_mutations (n : Notification) : Prop :=
  match n with
  | Mutations _ _ => False
  | _ => True
  end.

(** How many events are waiting. *)
Definition waits (w : World) : nat :=
  (Nat.b2n (Keyed.get (isWaitingEvents (self w)) ScrolledBottom)
   + Nat.b2n (Keyed.get (isWaitingEvents (self w)) ScrolledTop))%nat.

(** * Properties *)

(** ** Keyed objects *)

Lemma Keyed_get_put_same {A} (o : Keyed.t A) event a :
  Keyed.get (Keyed.put event a o) event = a.
Proof. by destruct event. Qed.

Lemma Keyed_get_put_other {A} (o : Keyed.t A) event event' a :
  event' ≠ event → Keyed.get (Keyed.put event a o) event' = Keyed.get o event'.
Proof. by destruct event, event'. Qed.

Lemma opposite_ne event : opposite event ≠ event.
Proof. by destruct event. Qed.

Lemma ne_opposite event event' : event' ≠ event → event' = opposite event.
Proof. by destruct event, event'. Qed.

(** ** The trace readers over concatenation *)

Lemma raised_app tr tr' : raised (tr ++ tr') = raised tr ++ raised tr'.
Proof. apply omap_app. Qed.

Lemma writes_app tr tr' : writes (tr ++ tr') = writes tr ++ writes tr'.
Proof. apply omap_app. Qed.

Lemma emitted_app event tr tr' :
  emitted event (tr ++ tr') = (emitted event tr + emitted event tr')%nat.
Proof. unfold emitted. by rewrite raised_app, filter_app, length_app. Qed.

Lemma waiting_after_app event tr tr' waiting :
  waiting_after event waiting (tr ++ tr')
  = waiting_after event (waiting_after event waiting tr) tr'.
Proof.
  revert waiting. induction tr as [|e tr IH]; intros waiting; [done|].
  destruct e; simpl; apply IH.
Qed.

Lemma once_per_wait_app event tr tr' waiting :
  once_per_wait event waiting (tr ++ tr')
  = once_per_wait event waiting tr
    && once_per_wait event (waiting_after event waiting tr) tr'.
Proof.
  revert waiting. induction tr as [|e tr IH]; intros waiting; [done|].
  destruct e; simpl; try apply IH.
  case_bool_decide; [|apply IH].
  rewrite IH. by rewrite andb_assoc.
Qed.

(** ** [emitEvent] *)

Lemma emitEvent_idle event w : armed event w = false → emitEvent event w = w.
Proof.
  unfold armed, emitEvent. intros H.
  destruct (Keyed.get _ event); [done|].
  simpl in *. by rewrite H.
Qed.

Lemma emitEvent_armed event w :
  armed event w = true →
  emitEvent event w
  = note (Emit event)
      (waitForContentChanges event
         (assign_previous (scrollHeight (container (document w)))
            (scrollTop (container (document w)))
            (assign_isWaitingEvents event true w))).
Proof.
  unfold armed, emitEvent. intros H.
  destruct (Keyed.get _ event); [done|].
  simpl in *. by rewrite H.
Qed.

Lemma emitEvent_trace event w :
  trace (emitEvent event w)
  = trace w ++ (if armed event w
                then [Observe (created (document w)) event; Emit event] else []).
Proof.
  destruct (armed event w) eqn:H.
  - rewrite emitEvent_armed by done. simpl. by rewrite <- app_assoc.
  - rewrite emitEvent_idle by done. by rewrite app_nil_r.
Qed.

Lemma emitEvent_container event w :
  container (document (emitEvent event w)) = container (document w).
Proof.
  destruct (armed event w) eqn:H.
  - by rewrite emitEvent_armed.
  - by rewrite emitEvent_idle.
Qed.

Lemma emitEvent_childNodes event w :
  childNodes (document (emitEvent event w)) = childNodes (document w).
Proof.
  destruct (armed event w) eqn:H.
  - by rewrite emitEvent_armed.
  - by rewrite emitEvent_idle.
Qed.

Lemma emitEvent_threshold event w :
  threshold (self (emitEvent event w)) = threshold (self w).
Proof.
  destruct (armed event w) eqn:H.
  - by rewrite emitEvent_armed.
  - by rewrite emitEvent_idle.
Qed.

Lemma emitEvent_handleEvents event w :
  handleEvents (self (emitEvent event w)) = handleEvents (self w).
Proof.
  destruct (armed event w) eqn:H.
  - by rewrite emitEvent_armed.
  - by rewrite emitEvent_idle.
Qed.

Lemma emitEvent_waiting event event' w :
  Keyed.get (isWaitingEvents (self (emitEvent event w))) event'
  = if bool_decide (event' = event) && armed event w then true
    else Keyed.get (isWaitingEvents (self w)) event'.
Proof.
  destruct (armed event w) eqn:H.
  - rewrite emitEvent_armed by done. simpl. case_bool_decide as E; simpl.
    + subst. apply Keyed_get_put_same.
    + by apply Keyed_get_put_other.
  - rewrite emitEvent_idle by done. by rewrite andb_false_r.
Qed.

Lemma emitEvent_observer event event' w :
  Keyed.get (observerEvents (self (emitEvent event w))) event'
  = if bool_decide (event' = event) && armed event w
    then Some (created (document w))
    else Keyed.get (observerEvents (self w)) event'.
Proof.
  destruct (armed event w) eqn:H.
  - rewrite emitEvent_armed by done. simpl. case_bool_decide as E; simpl.
    + subst. apply Keyed_get_put_same.
    + by apply Keyed_get_put_other.
  - rewrite emitEvent_idle by done. by rewrite andb_false_r.
Qed.

Lemma emitEvent_previous event w :
  armed event w = true →
  previousScrollHeight (self (emitEvent event w)) = scrollHeight (container (document w))
  ∧ previousScrollTop (self (emitEvent event w)) = scrollTop (container (document w)).
Proof. intros H. by rewrite emitEvent_armed. Qed.

Lemma emitEvent_near event event' w : near event' (emitEvent event w) = near event' w.
Proof.
  destruct event'; unfold near, isScrolledBottom, isScrolledTop;
    by rewrite emitEvent_container, emitEvent_threshold.
Qed.

Lemma emitEvent_armed_other event event' w :
  event' ≠ event → armed event' (emitEvent event w) = armed event' w.
Proof.
  intros Hne. unfold armed.
  rewrite emitEvent_waiting, emitEvent_handleEvents.
  by rewrite bool_decide_eq_false_2.
Qed.

(** ** [handleScroll] *)

Lemma handleScroll_unfold w :
  handleScroll w
  = let w1 := if isScrolledBottom w then emitEvent ScrolledBottom w else w in
    if isScrolledTop w then emitEvent ScrolledTop w1 else w1.
Proof. unfold handleScroll. by destruct (isScrolledBottom w), (isScrolledTop w). Qed.

Lemma handleScroll_container w :
  container (document (handleScroll w)) = container (document w).
Proof.
  rewrite handleScroll_unfold. simpl.
  destruct (isScrolledBottom w), (isScrolledTop w);
    by rewrite ?emitEvent_container.
Qed.

Lemma handleScroll_threshold w : threshold (self (handleScroll w)) = threshold (self w).
Proof.
  rewrite handleScroll_unfold. simpl.
  destruct (isScrolledBottom w), (isScrolledTop w);
    by rewrite ?emitEvent_threshold.
Qed.

Lemma handleScroll_handleEvents w :
  handleEvents (self (handleScroll w)) = handleEvents (self w).
Proof.
  rewrite handleScroll_unfold. simpl.
  destruct (isScrolledBottom w), (isScrolledTop w);
    by rewrite ?emitEvent_handleEvents.
Qed.

Lemma handleScroll_near event w : near event (handleScroll w) = near event w.
Proof.
  destruct event; unfold near, isScrolledBottom, isScrolledTop;
    by rewrite handleScroll_container, handleScroll_threshold.
Qed.

(** What one pass gives to [emit]: the bottom event, then the top event, each
    one if its getter is true and [emitEvent] goes past its guard. *)
Lemma handleScroll_raised w :
  raised (trace (handleScroll w))
  = raised (trace w)
    ++ (if isScrolledBottom w && armed ScrolledBottom w then [ScrolledBottom] else [])
    ++ (if isScrolledTop w && armed ScrolledTop w then [ScrolledTop] else []).
Proof.
  rewrite handleScroll_unfold. simpl.
  destruct (isScrolledBottom w), (isScrolledTop w); simpl;
    rewrite ?emitEvent_trace, ?raised_app, ?emitEvent_armed_other by done;
    rewrite ?app_nil_r; try done.
  - rewrite <- app_assoc. f_equal.
    by destruct (armed ScrolledBottom w), (armed ScrolledTop w).
  - by destruct (armed ScrolledBottom w).
  - by destruct (armed ScrolledTop w).
Qed.

Lemma handleScroll_waiting event w :
  Keyed.get (isWaitingEvents (self (handleScroll w))) event
  = if near event w && armed event w then true
    else Keyed.get (isWaitingEvents (self w)) event.
Proof.
  rewrite handleScroll_unfold. simpl.
  destruct event, (isScrolledBottom w) eqn:B, (isScrolledTop w) eqn:T; simpl;
    rewrite ?B, ?T, ?emitEvent_waiting, ?emitEvent_armed_other by done;
    simpl; done.
Qed.

Lemma handleScroll_observer event w :
  near event w && armed event w = false →
  Keyed.get (observerEvents (self (handleScroll w))) event
  = Keyed.get (observerEvents (self w)) event.
Proof.
  rewrite handleScroll_unfold. simpl.
  destruct event, (isScrolledBottom w) eqn:B, (isScrolledTop w) eqn:T; simpl;
    rewrite ?B, ?T, ?emitEvent_observer, ?emitEvent_armed_other by done;
    simpl; try done; by intros ->.
Qed.

Lemma handleScroll_emitted event w :
  emitted event (trace (handleScroll w))
  = (emitted event (trace w) + (if near event w && armed event w then 1 else 0))%nat.
Proof.
  unfold emitted. rewrite handleScroll_raised, !filter_app, !length_app.
  f_equal.
  destruct event; simpl;
    destruct (isScrolledBottom w && armed ScrolledBottom w),
             (isScrolledTop w && armed ScrolledTop w); done.
Qed.

(** ** The observer's callback *)

Lemma Keyed_get_put {A} (o : Keyed.t A) event event' a :
  Keyed.get (Keyed.put event a o) event'
  = if bool_decide (event' = event) then a else Keyed.get o event'.
Proof. by destruct event, event'. Qed.

Lemma callback_cons event mutation rest w :
  callback event (mutation :: rest) w
  = if proceeds event w mutation then Returned (proceed event w) else Returned w.
Proof. done. Qed.

Lemma deliver_cons o event mutation rest w :
  observers (document w) !! o = Some event →
  deliver o (mutation :: rest) w
  = if proceeds event w mutation then proceed event w else w.
Proof.
  intros H. unfold deliver. rewrite H, callback_cons.
  by destruct (proceeds event w mutation).
Qed.


Lemma deliver_unconnected o mutations w :
  observers (document w) !! o = None → deliver o mutations w = w.
Proof. intros H. unfold deliver. by rewrite H. Qed.

Lemma proceed_waiting event event' w :
  Keyed.get (isWaitingEvents (self (proceed event w))) event'
  = if bool_decide (event' = event) then false
    else Keyed.get (isWaitingEvents (self w)) event'.
Proof.
  unfold proceed.
  destruct (Keyed.get (observerEvents (self w)) event), (bool_decide (event = ScrolledTop));
    simpl; apply Keyed_get_put.
Qed.

Lemma proceed_observer event event' w :
  Keyed.get (observerEvents (self (proceed event w))) event'
  = if bool_decide (event' = event) then None
    else Keyed.get (observerEvents (self w)) event'.
Proof.
  unfold proceed.
  destruct (Keyed.get (observerEvents (self w)) event), (bool_decide (event = ScrolledTop));
    simpl; apply Keyed_get_put.
Qed.

Lemma proceed_observers event w :
  observers (document (proceed event w))
  = match Keyed.get (observerEvents (self w)) event with
    | Some o => delete o (observers (document w))
    | None => observers (document w)
    end.
Proof.
  unfold proceed.
  by destruct (Keyed.get (observerEvents (self w)) event), (bool_decide (event = ScrolledTop)).
Qed.

Lemma proceed_created event w :
  created (document (proceed event w)) = created (document w).
Proof.
  unfold proceed.
  by destruct (Keyed.get (observerEvents (self w)) event), (bool_decide (event = ScrolledTop)).
Qed.

Lemma proceed_handleEvents event w :
  handleEvents (self (proceed event w)) = handleEvents (self w).
Proof.
  unfold proceed.
  by destruct (Keyed.get (observerEvents (self w)) event), (bool_decide (event = ScrolledTop)).
Qed.

Lemma proceed_previous event w :
  previousScrollHeight (self (proceed event w)) = previousScrollHeight (self w)
  ∧ previousScrollTop (self (proceed event w)) = previousScrollTop (self w).
Proof.
  unfold proceed.
  by destruct (Keyed.get (observerEvents (self w)) event), (bool_decide (event = ScrolledTop)).
Qed.

Lemma proceed_raised event w : raised (trace (proceed event w)) = raised (trace w).
Proof.
  unfold proceed.
  destruct (Keyed.get (observerEvents (self w)) event), (bool_decide (event = ScrolledTop));
    simpl; rewrite ?raised_app; simpl; by rewrite ?app_nil_r.
Qed.

(** The bottom event: the container is not written. *)
Lemma proceed_bottom_container w :
  container (document (proceed ScrolledBottom w)) = container (document w)
  ∧ writes (trace (proceed ScrolledBottom w)) = writes (trace w).
Proof.
  unfold proceed.
  destruct (Keyed.get (observerEvents (self w)) ScrolledBottom);
    simpl; rewrite ?writes_app; simpl; by rewrite ?app_nil_r.
Qed.

(** The top event: one write, of the saved offset moved by the growth. *)
Lemma proceed_top_container w :
  let v := previousScrollTop (self w)
           + (scrollHeight (container (document w)) - previousScrollHeight (self w)) in
  scrollTop (container (document (proceed ScrolledTop w))) = v
  ∧ scrollHeight (container (document (proceed ScrolledTop w)))
    = scrollHeight (container (document w))
  ∧ clientHeight (container (document (proceed ScrolledTop w)))
    = clientHeight (container (document w))
  ∧ writes (trace (proceed ScrolledTop w)) = writes (trace w) ++ [v].
Proof.
  unfold proceed.
  destruct (Keyed.get (observerEvents (self w)) ScrolledTop);
    simpl; rewrite ?writes_app; simpl; by rewrite ?app_nil_r.
Qed.

(** The trace of the block. *)
Lemma proceed_trace event w :
  ∃ tr, trace (proceed event w) = trace w ++ tr
        ∧ raised tr = []
        ∧ (∀ b, waiting_after event b tr = false)
        ∧ (∀ b, once_per_wait event b tr = true)
        ∧ (∀ b, waiting_after (opposite event) b tr = b)
        ∧ (∀ b, once_per_wait (opposite event) b tr = true).
Proof.
  unfold proceed.
  destruct (Keyed.get (observerEvents (self w)) event) as [o|], event; simpl.
  - exists [Disconnect o; StopWaiting ScrolledBottom]. by rewrite <- app_assoc.
  - exists [Disconnect o; StopWaiting ScrolledTop;
            AssignScrollTop (previousScrollTop (self w)
              + (scrollHeight (container (document w)) - previousScrollHeight (self w)))].
    by rewrite <- !app_assoc.
  - by exists [StopWaiting ScrolledBottom].
  - exists [StopWaiting ScrolledTop;
            AssignScrollTop (previousScrollTop (self w)
              + (scrollHeight (container (document w)) - previousScrollHeight (self w)))].
    by rewrite <- !app_assoc.
Qed.

(** ** The fields and the page stay in agreement *)

Lemma consistent_new c l t h : consistent (new_PureInfiniteScroll (page c l) t h).
Proof.
  split; simpl.
  - intros o event H. by rewrite lookup_empty in H.
  - by intros o [].
  - by intros [].
  - intros o _. apply lookup_empty.
Qed.

Lemma consistent_emitEvent event w : consistent w → consistent (emitEvent event w).
Proof.
  intros C. destruct (armed event w) eqn:A; [|by rewrite emitEvent_idle].
  assert (Keyed.get (observerEvents (self w)) event = None) as Hnone.
  { destruct (Keyed.get (observerEvents (self w)) event) eqn:E; [|done].
    assert (Keyed.get (isWaitingEvents (self w)) event = true) as W
      by (apply (waiting_held w C); congruence).
    unfold armed in A. by rewrite W in A. }
  split.
  - intros o e. rewrite emitEvent_observer, A, andb_true_r.
    rewrite emitEvent_armed by done. simpl.
    destruct (decide (o = created (document w))) as [->|Hne].
    + rewrite lookup_insert_eq. intros [= <-]. by rewrite bool_decide_eq_true_2.
    + rewrite lookup_insert_ne by done. intros H.
      pose proof (connected_held w C _ _ H) as Hs.
      case_bool_decide; [congruence|done].
  - intros o e. rewrite emitEvent_observer, A, andb_true_r.
    rewrite emitEvent_armed by done. simpl.
    case_bool_decide as E.
    + intros [= <-]. subst. apply lookup_insert_eq.
    + intros H. pose proof (held_connected w C _ _ H) as Hc.
      rewrite lookup_insert_ne; [done|].
      intros <-. by rewrite (fresh_free w C) in Hc.
  - intros e. rewrite emitEvent_waiting, emitEvent_observer, A, andb_true_r.
    case_bool_decide; [done|apply (waiting_held w C)].
  - intros o Ho. rewrite emitEvent_armed in * by done. simpl in *.
    rewrite lookup_insert_ne by lia. apply (fresh_free w C). lia.
Qed.

Lemma consistent_handleScroll w : consistent w → consistent (handleScroll w).
Proof.
  intros C. rewrite handleScroll_unfold. simpl.
  destruct (isScrolledBottom w), (isScrolledTop w);
    eauto using consistent_emitEvent.
Qed.

Lemma consistent_proceed event w : consistent w → consistent (proceed event w).
Proof.
  intros C. split.
  - intros o e. rewrite proceed_observers, proceed_observer.
    destruct (Keyed.get (observerEvents (self w)) event) as [o0|] eqn:E.
    + destruct (decide (o = o0)) as [->|Hne].
      * by rewrite lookup_delete_eq.
      * rewrite lookup_delete_ne by done. intros H.
        pose proof (connected_held w C _ _ H) as Hs.
        case_bool_decide; [congruence|done].
    + intros H. pose proof (connected_held w C _ _ H) as Hs.
      case_bool_decide; [congruence|done].
  - intros o e. rewrite proceed_observers, proceed_observer.
    case_bool_decide as Hne; [done|]. intros H.
    pose proof (held_connected w C _ _ H) as Hc.
    destruct (Keyed.get (observerEvents (self w)) event) as [o0|] eqn:E; [|done].
    rewrite lookup_delete_ne; [done|]. intros <-.
    pose proof (held_connected w C _ _ E). congruence.
  - intros e. rewrite proceed_waiting, proceed_observer.
    case_bool_decide; [done|apply (waiting_held w C)].
  - intros o. rewrite proceed_observers, proceed_created. intros Ho.
    destruct (Keyed.get (observerEvents (self w)) event).
    + apply lookup_delete_None. right. by apply (fresh_free w C).
    + by apply (fresh_free w C).
Qed.

Lemma consistent_deliver o mutations w : consistent w → consistent (deliver o mutations w).
Proof.
  intros C. unfold deliver.
  destruct (observers (document w) !! o) as [event|]; [|done].
  unfold callback. destruct (index mutations 0) as [mutation|]; [|done].
  destruct (proceeds event w mutation); [by apply consistent_proceed|done].
Qed.

Lemma consistent_step w n : consistent w → consistent (step w n).
Proof.
  intros C. destruct n; simpl.
  - by destruct C.
  - by destruct C.
  - by destruct C.
  - by destruct C.
  - by apply consistent_handleScroll.
  - by apply consistent_deliver.
Qed.

Lemma consistent_run w ns : consistent w → consistent (run w ns).
Proof.
  revert w. induction ns as [|n ns IH]; intros w C; [done|].
  apply IH, consistent_step, C.
Qed.

(** ** The trace and the waiting flags *)

Lemma tracks_new event page t h : tracks event (new_PureInfiniteScroll page t h).
Proof. by destruct event. Qed.

Lemma tracks_emitEvent event e w : tracks event w → tracks event (emitEvent e w).
Proof.
  intros [Ho Hw]. unfold tracks.
  rewrite emitEvent_trace, once_per_wait_app, waiting_after_app, Ho, Hw, emitEvent_waiting.
  destruct (armed e w) eqn:A; simpl; [|by rewrite andb_false_r].
  rewrite andb_true_r.
  destruct (decide (e = event)) as [->|Hne].
  - rewrite !bool_decide_eq_true_2 by done.
    unfold armed in A. by destruct (Keyed.get (isWaitingEvents (self w)) event).
  - rewrite (bool_decide_eq_false_2 (e = event)) by done.
    by rewrite (bool_decide_eq_false_2 (event = e)) by done.
Qed.

Lemma tracks_handleScroll event w : tracks event w → tracks event (handleScroll w).
Proof.
  intros T. rewrite handleScroll_unfold. simpl.
  destruct (isScrolledBottom w), (isScrolledTop w); eauto using tracks_emitEvent.
Qed.

Lemma tracks_proceed event e w : tracks event w → tracks event (proceed e w).
Proof.
  intros [Ho Hw]. unfold tracks.
  destruct (proceed_trace e w) as (tr & -> & _ & Wa & On & Wo & Oo).
  rewrite once_per_wait_app, waiting_after_app, Ho, Hw, proceed_waiting. simpl.
  destruct (decide (event = e)) as [->|Hne].
  - by rewrite bool_decide_eq_true_2, On, Wa.
  - rewrite bool_decide_eq_false_2 by done.
    apply ne_opposite in Hne as ->. by rewrite Oo, Wo.
Qed.

Lemma tracks_deliver event o mutations w : tracks event w → tracks event (deliver o mutations w).
Proof.
  intros T. unfold deliver.
  destruct (observers (document w) !! o) as [e|]; [|done].
  unfold callback. destruct (index mutations 0) as [mutation|]; [|done].
  destruct (proceeds e w mutation); [by apply tracks_proceed|done].
Qed.

Lemma tracks_step event w n : tracks event w → tracks event (step w n).
Proof.
  intros T. destruct n; simpl; try done.
  - by apply tracks_handleScroll.
  - by apply tracks_deliver.
Qed.

Lemma tracks_run event w ns : tracks event w → tracks event (run w ns).
Proof.
  revert w. induction ns as [|n ns IH]; intros w T; [done|].
  apply IH, tracks_step, T.
Qed.

(** ** The saved scroll position between two raises *)

Lemma handleScroll_idle w :
  near ScrolledBottom w && armed ScrolledBottom w = false →
  near ScrolledTop w && armed ScrolledTop w = false →
  handleScroll w = w.
Proof.
  rewrite handleScroll_unfold. simpl.
  destruct (isScrolledBottom w), (isScrolledTop w); simpl; intros B T;
    by rewrite ?(emitEvent_idle ScrolledBottom w), ?(emitEvent_idle ScrolledTop w).
Qed.

Lemma step_raised w n :
  ∃ l, raised (trace (step w n)) = raised (trace w) ++ l
       ∧ (l = [] →
          previousScrollHeight (self (step w n)) = previousScrollHeight (self w)
          ∧ previousScrollTop (self (step w n)) = previousScrollTop (self w)).
Proof.
  destruct n; simpl; try (exists []; by rewrite app_nil_r).
  - eexists. split; [apply handleScroll_raised|]. intros H.
    apply app_eq_nil in H as [B T].
    rewrite handleScroll_idle; [done| |].
    + simpl. by destruct (isScrolledBottom w && armed ScrolledBottom w).
    + simpl. by destruct (isScrolledTop w && armed ScrolledTop w).
  - exists []. rewrite app_nil_r. unfold deliver.
    destruct (observers (document w) !! o) as [e|]; [|done].
    unfold callback. destruct (index mutations 0) as [mutation|]; [|done].
    destruct (proceeds e w mutation); [|done].
    split; [apply proceed_raised|]. intros _. apply proceed_previous.
Qed.

Lemma run_raised w ns :
  ∃ l, raised (trace (run w ns)) = raised (trace w) ++ l
       ∧ (l = [] →
          previousScrollHeight (self (run w ns)) = previousScrollHeight (self w)
          ∧ previousScrollTop (self (run w ns)) = previousScrollTop (self w)).
Proof.
  revert w. induction ns as [|n ns IH]; intros w.
  - exists []. by rewrite app_nil_r.
  - destruct (step_raised w n) as (l1 & E1 & P1).
    destruct (IH (step w n)) as (l2 & E2 & P2).
    exists (l1 ++ l2). split.
    + simpl. by rewrite E2, E1, app_assoc.
    + intros H. apply app_eq_nil in H as [-> ->].
      destruct (P1 eq_refl) as [<- <-]. by apply P2.
Qed.

Lemma run_previous w ns :
  raised (trace (run w ns)) = raised (trace w) →
  previousScrollHeight (self (run w ns)) = previousScrollHeight (self w)
  ∧ previousScrollTop (self (run w ns)) = previousScrollTop (self w).
Proof.
  intros H. destruct (run_raised w ns) as (l & E & P).
  apply P. rewrite E in H.
  rewrite <- (app_nil_r (raised (trace w))) in H at 2.
  by apply app_inv_head in H.
Qed.

(** ** An event that is not handled *)

Lemma armed_includes event w :
  event ∉ handleEvents (self w) → armed event w = false.
Proof.
  intros H. unfold armed, includes.
  by rewrite bool_decide_eq_false_2, andb_false_r.
Qed.

Lemma step_keeps_out event w n :
  keeps_out event n →
  event ∉ handleEvents (self w) →
  (event ∉ handleEvents (self (step w n)))
  ∧ emitted event (trace (step w n)) = emitted event (trace w).
Proof.
  intros K H. destruct n; simpl in *; try done.
  - rewrite handleScroll_handleEvents, handleScroll_emitted.
    rewrite armed_includes, andb_false_r by done. split; [done|lia].
  - unfold deliver.
    destruct (observers (document w) !! o) as [e|]; [|done].
    unfold callback. destruct (index mutations 0) as [mutation|]; [|done].
    destruct (proceeds e w mutation); [|done].
    rewrite proceed_handleEvents. split; [done|].
    unfold emitted. by rewrite proceed_raised.
Qed.

Lemma run_keeps_out event w ns :
  Forall (keeps_out event) ns →
  event ∉ handleEvents (self w) →
  emitted event (trace (run w ns)) = emitted event (trace w).
Proof.
  intros F. revert w. induction F as [|n ns K F IH]; intros w H; [done|].
  destruct (step_keeps_out event w n K H) as [H' E].
  simpl. by rewrite IH, E.
Qed.

(** ** Repeated scroll notifications *)

Lemma run_app w ns ns' : run w (ns ++ ns') = run (run w ns) ns'.
Proof. apply foldl_app. Qed.

Lemma scrolls_while_waiting event w k :
  Keyed.get (isWaitingEvents (self w)) event = true →
  emitted event (trace (run w (replicate k Scroll))) = emitted event (trace w)
  ∧ Keyed.get (isWaitingEvents (self (run w (replicate k Scroll)))) event = true.
Proof.
  revert w. induction k as [|k IH]; intros w W; [done|].
  simpl. destruct (IH (handleScroll w)) as [E W'].
  - rewrite handleScroll_waiting, W. by destruct (near event w && armed event w).
  - split; [|done]. rewrite E, handleScroll_emitted.
    unfold armed. rewrite W. simpl. rewrite andb_false_r. lia.
Qed.

(** * The claims *)

(** C1.  For every geometry of the container and every threshold,
    [isScrolledBottom] is true exactly when [scrollHeight - scrollTop -
    clientHeight <= threshold] and [isScrolledTop] exactly when [scrollTop <=
    threshold]; with threshold 0, [scrollTop = 0] makes [isScrolledTop] true
    and every positive [scrollTop] makes it false. *)
Theorem isScrolled_threshold (w : World) (c : HTMLElement) (t : Z) :
  let w' := assign_threshold t (relayout c w) in
  (isScrolledBottom w' = true ↔ scrollHeight c - scrollTop c - clientHeight c ≤ t)
  ∧ (isScrolledTop w' = true ↔ scrollTop c ≤ t)
  ∧ (t = 0 →
     (scrollTop c = 0 → isScrolledTop w' = true)
     ∧ (0 < scrollTop c → isScrolledTop w' = false)).
Proof.
  unfold isScrolledBottom, isScrolledTop. simpl.
  split; [apply bool_decide_eq_true|].
  split; [apply bool_decide_eq_true|].
  intros ->. split; intros H.
  - apply bool_decide_eq_true_2. lia.
  - apply bool_decide_eq_false_2. lia.
Qed.

Lemma isScrolled_threshold_witness :
  let w := new_PureInfiniteScroll (page {| scrollTop := 1; scrollHeight := 1000;
                                           clientHeight := 200 |} []) None None in
  isScrolledTop
    (assign_threshold 0
       (relayout {| scrollTop := 0; scrollHeight := 1000; clientHeight := 200 |} w)) = true
  ∧ isScrolledTop
      (assign_threshold 0
         (relayout {| scrollTop := 1; scrollHeight := 1000; clientHeight := 200 |} w)) = false.
Proof.
  intros w. split.
  - apply (isScrolled_threshold w
             {| scrollTop := 0; scrollHeight := 1000; clientHeight := 200 |} 0);
      reflexivity.
  - apply (isScrolled_threshold w
             {| scrollTop := 1; scrollHeight := 1000; clientHeight := 200 |} 0);
      [reflexivity | simpl; lia].
Defined.

(** C9.  A negative threshold is stored by the constructor as it is given,
    and with it, at every geometry with [0 <= scrollTop <= scrollHeight -
    clientHeight], [isScrolledTop] and [isScrolledBottom] are both false. *)
Theorem negative_threshold_never_near (t : Z) :
  t < 0 →
  (∀ d h, threshold (self (new_PureInfiniteScroll d (Some t) h)) = t)
  ∧ (∀ w, threshold (self w) = t →
          0 ≤ scrollTop (container (document w))
            ≤ scrollHeight (container (document w)) - clientHeight (container (document w)) →
          isScrolledTop w = false ∧ isScrolledBottom w = false).
Proof.
  intros Ht. split; [done|]. intros w Hw Hg.
  unfold isScrolledTop, isScrolledBottom.
  split; apply bool_decide_eq_false_2; lia.
Qed.

Lemma negative_threshold_never_near_witness :
  let w := new_PureInfiniteScroll (page {| scrollTop := 0; scrollHeight := 1000;
                                           clientHeight := 200 |} []) (Some (-1)) None in
  isScrolledTop w = false ∧ isScrolledBottom w = false.
Proof.
  intros w.
  apply (proj2 (negative_threshold_never_near (-1) ltac:(lia)) w);
    [reflexivity | simpl; lia].
Defined.

(** C6.  An event that is not in [handleEvents] is never raised: [emitEvent]
    returns without changing anything, a scroll notification gives it to
    [emit] no more often than before and leaves its waiting flag and its
    observer as they were, whatever the geometry and the threshold, and over
    any run in which no assignment to [handleEvents] brings it in, it is
    never given to [emit]. *)
Theorem unhandled_event_never_raised (event : PureInfiniteScrollEvent) :
  (∀ w, event ∉ handleEvents (self w) → emitEvent event w = w)
  ∧ (∀ w, event ∉ handleEvents (self w) →
          emitted event (trace (handleScroll w)) = emitted event (trace w)
          ∧ Keyed.get (isWaitingEvents (self (handleScroll w))) event
            = Keyed.get (isWaitingEvents (self w)) event
          ∧ Keyed.get (observerEvents (self (handleScroll w))) event
            = Keyed.get (observerEvents (self w)) event)
  ∧ (∀ c l t h ns, event ∉ h → Forall (keeps_out event) ns →
          emitted event (trace (run (new_PureInfiniteScroll (page c l) t (Some h)) ns))
          = 0%nat).
Proof.
  split; [|split].
  - intros w H. by apply emitEvent_idle, armed_includes.
  - intros w H. pose proof (armed_includes event w H) as A.
    rewrite handleScroll_emitted, handleScroll_waiting, A, andb_false_r.
    split; [lia|]. split; [done|].
    apply handleScroll_observer. by rewrite A, andb_false_r.
  - intros c l t h ns H F. by rewrite run_keeps_out.
Qed.

Lemma unhandled_event_never_raised_witness :
  let w := new_PureInfiniteScroll (page {| scrollTop := 800; scrollHeight := 1000;
                                           clientHeight := 200 |} [])
             (Some 50) (Some [ScrolledTop]) in
  emitEvent ScrolledBottom w = w
  ∧ emitted ScrolledBottom (trace (run w [Scroll; Scroll])) = 0%nat.
Proof.
  intros w. split.
  - apply (proj1 (unhandled_event_never_raised ScrolledBottom) w).
    simpl. compute_done.
  - apply (proj2 (proj2 (unhandled_event_never_raised ScrolledBottom))).
    + compute_done.
    + repeat constructor.
Defined.

(** C10.  Raising an event leaves the waiting flag and the observer of the
    other event as they are, and overwrites the one saved scroll position of
    the object, [previousScrollHeight] and [previousScrollTop], with the
    geometry of that moment, whichever event is raised; the adjustment made
    for the top event reads that one saved position. *)
Theorem emitEvent_one_saved_position (event : PureInfiniteScrollEvent) (w : World) :
  let w' := emitEvent event w in
  Keyed.get (isWaitingEvents (self w')) (opposite event)
  = Keyed.get (isWaitingEvents (self w)) (opposite event)
  ∧ Keyed.get (observerEvents (self w')) (opposite event)
    = Keyed.get (observerEvents (self w)) (opposite event)
  ∧ (armed event w = true →
     previousScrollHeight (self w') = scrollHeight (container (document w))
     ∧ previousScrollTop (self w') = scrollTop (container (document w))
     ∧ scrollTop (container (document (handleContentChanges w')))
       = scrollTop (container (document w))
         + (scrollHeight (container (document w')) - scrollHeight (container (document w)))).
Proof.
  simpl. rewrite emitEvent_waiting, emitEvent_observer.
  rewrite (bool_decide_eq_false_2 _ (opposite_ne event)). simpl.
  split; [done|]. split; [done|]. intros A.
  destruct (emitEvent_previous event w A) as [Hh Ht].
  split; [done|]. split; [done|].
  unfold handleContentChanges. simpl. by rewrite Hh, Ht.
Qed.

Lemma emitEvent_one_saved_position_witness :
  let w := emitEvent ScrolledTop
             (new_PureInfiniteScroll (page {| scrollTop := 100; scrollHeight := 1000;
                                              clientHeight := 200 |} [])
                (Some 100) None) in
  let w' := emitEvent ScrolledBottom
              (relayout {| scrollTop := 750; scrollHeight := 1000; clientHeight := 200 |} w) in
  (previousScrollHeight (self w), previousScrollTop (self w)) = (1000, 100)
  ∧ (previousScrollHeight (self w'), previousScrollTop (self w')) = (1000, 750)
  ∧ Keyed.get (isWaitingEvents (self w')) ScrolledTop = true.
Proof.
  intros w w'. split; [reflexivity|].
  destruct (emitEvent_one_saved_position ScrolledBottom
              (relayout {| scrollTop := 750; scrollHeight := 1000; clientHeight := 200 |} w))
    as (Hw & _ & Hp).
  destruct (Hp eq_refl) as (Hh & Ht & _).
  split.
  - unfold w'. rewrite Hh, Ht. reflexivity.
  - etransitivity; [exact Hw | reflexivity].
Defined.

(** C8.  Of a batch of mutation records given to an observer, the first
    record alone decides: the callback does with the batch what it does with
    the first record by itself, and when the first record does not make it
    proceed, nothing changes, so the event stays waiting, also when a later
    record of the batch would have made it proceed. *)
Theorem first_record_only (event : PureInfiniteScrollEvent) (o : nat)
    (mutation : MutationRecord) (rest : list MutationRecord) (w : World) :
  callback event (mutation :: rest) w = callback event [mutation] w
  ∧ deliver o (mutation :: rest) w = deliver o [mutation] w
  ∧ (observers (document w) !! o = Some event →
     proceeds event w mutation = false →
     ∀ later, later ∈ rest → proceeds event w later = true →
       deliver o (mutation :: rest) w = w).
Proof.
  split; [done|]. split.
  - unfold deliver. by destruct (observers (document w) !! o).
  - intros H P later _ _. by rewrite (deliver_cons o event), P.
Qed.

Lemma first_record_only_witness :
  let a := {| nodeRef := 1; nodeContent := 10 |} in
  let b := {| nodeRef := 2; nodeContent := 20 |} in
  let m := {| nodeRef := 3; nodeContent := 30 |} in
  let w := emitEvent ScrolledTop
             (new_PureInfiniteScroll (page {| scrollTop := 0; scrollHeight := 1000;
                                              clientHeight := 200 |} [b; m; a])
                None None) in
  let middle := {| addedNodes := [m]; removedNodes := [] |} in
  let start := {| addedNodes := [b]; removedNodes := [] |} in
  deliver 0 [middle; start] w = w
  ∧ Keyed.get (isWaitingEvents (self w)) ScrolledTop = true
  ∧ Keyed.get (isWaitingEvents (self (deliver 0 [start; middle] w))) ScrolledTop = false.
Proof.
  intros a b m w middle start. split; [|split; reflexivity].
  apply (proj2 (proj2 (first_record_only ScrolledTop 0 middle [start] w))
           eq_refl eq_refl start); [constructor | reflexivity].
Defined.

(** C7.  In a world reached from the constructor, when the observer of the
    bottom event is given a batch whose first record is an insertion at the
    end, the bottom event stops waiting, its observer is disconnected and
    forgotten, and the container is not written: its geometry is what the
    page had, and no assignment to [scrollTop] is added to the trace. *)
Theorem bottom_insertion_writes_nothing (c : HTMLElement) (l : list Node)
    (t : option Z) (h : option (list PureInfiniteScrollEvent))
    (ns : list Notification) (o : nat) (mutation : MutationRecord)
    (rest : list MutationRecord) :
  let w := run (new_PureInfiniteScroll (page c l) t h) ns in
  let w' := deliver o (mutation :: rest) w in
  observers (document w) !! o = Some ScrolledBottom →
  mutationEnd w mutation = true →
  Keyed.get (isWaitingEvents (self w')) ScrolledBottom = false
  ∧ Keyed.get (observerEvents (self w')) ScrolledBottom = None
  ∧ observers (document w') !! o = None
  ∧ container (document w') = container (document w)
  ∧ writes (trace w') = writes (trace w).
Proof.
  intros w w' Ho He.
  assert (consistent w) as C by apply consistent_run, consistent_new.
  assert (w' = proceed ScrolledBottom w) as ->.
  { unfold w'. rewrite (deliver_cons o ScrolledBottom) by done.
    unfold proceeds. rewrite He. simpl. by rewrite orb_true_r. }
  rewrite proceed_waiting, proceed_observer, proceed_observers.
  rewrite (connected_held w C _ _ Ho), lookup_delete_eq.
  destruct (proceed_bottom_container w) as [Hc Hw].
  by rewrite Hc, Hw.
Qed.

Lemma bottom_insertion_writes_nothing_witness :
  let a := {| nodeRef := 1; nodeContent := 10 |} in
  let b := {| nodeRef := 2; nodeContent := 20 |} in
  let c := {| scrollTop := 800; scrollHeight := 1000; clientHeight := 200 |} in
  let c' := {| scrollTop := 800; scrollHeight := 1200; clientHeight := 200 |} in
  let w := run (new_PureInfiniteScroll (page c [a]) (Some 50) None)
             [Scroll; Children [a; b]; Layout c'] in
  let w' := deliver 0 [{| addedNodes := [b]; removedNodes := [] |}] w in
  raised (trace w) = [ScrolledBottom]
  ∧ Keyed.get (isWaitingEvents (self w')) ScrolledBottom = false
  ∧ container (document w') = c'
  ∧ writes (trace w') = [].
Proof.
  intros a b c c' w w'. split; [reflexivity|].
  destruct (bottom_insertion_writes_nothing c [a] (Some 50) None
              [Scroll; Children [a; b]; Layout c'] 0
              {| addedNodes := [b]; removedNodes := [] |} [] eq_refl eq_refl)
    as (Hw & _ & _ & Hc & Ht).
  split; [exact Hw|]. split; [exact Hc|exact Ht].
Defined.

(** C5 (amended).  On a scroll notification at which [isScrolledBottom] and
    [isScrolledTop] are both true, what the pass gives to [emit] is the
    bottom event, if [emitEvent] goes past its guard for it, followed by the
    top event, if [emitEvent] goes past its guard for it: when both are
    raised, the bottom event is raised first.  (For clientHeight 200 and
    scrollHeight 1000 both getters are true at scrollTop 750 with threshold
    750.) *)
Theorem bottom_before_top (w : World) :
  isScrolledBottom w = true →
  isScrolledTop w = true →
  raised (trace (handleScroll w))
  = raised (trace w)
    ++ (if armed ScrolledBottom w then [ScrolledBottom] else [])
    ++ (if armed ScrolledTop w then [ScrolledTop] else [])
  ∧ (armed ScrolledBottom w = true → armed ScrolledTop w = true →
     raised (trace (handleScroll w)) = raised (trace w) ++ [ScrolledBottom; ScrolledTop]).
Proof.
  intros B T. rewrite handleScroll_raised, B, T. simpl.
  split; [done|]. by intros -> ->.
Qed.

Lemma bottom_before_top_witness :
  let w := new_PureInfiniteScroll (page {| scrollTop := 750; scrollHeight := 1000;
                                           clientHeight := 200 |} [])
             (Some 750) None in
  raised (trace (handleScroll w)) = [ScrolledBottom; ScrolledTop].
Proof.
  intros w.
  exact (proj2 (bottom_before_top w eq_refl eq_refl) eq_refl eq_refl).
Defined.

(** C5, as stated, at its own example: with clientHeight 200, scrollHeight
    1000, threshold 50 and scrollTop 750, [isScrolledTop] is false, the two
    getters are not both true, and the pass raises the bottom event alone. *)
Lemma both_near_example_is_bottom_only :
  let w := new_PureInfiniteScroll (page {| scrollTop := 750; scrollHeight := 1000;
                                           clientHeight := 200 |} [])
             (Some 50) None in
  isScrolledBottom w = true
  ∧ isScrolledTop w = false
  ∧ ¬ (isScrolledBottom w = true ∧ isScrolledTop w = true)
  ∧ raised (trace (handleScroll w)) = [ScrolledBottom].
Proof.
  intros w. split; [reflexivity|]. split; [reflexivity|].
  split; [|reflexivity]. intros [_ H]. discriminate H.
Qed.

(** C2.  Over every run from the constructor, each event is given to [emit]
    at most once per wait: between two raises of the event the callback of
    its observer has proceeded and reset its waiting flag.  While the flag is
    set, scroll notifications raise nothing for the event and leave the flag
    set; and from a world in which the event is near its boundary and
    [emitEvent] would go past its guard, any positive number of scroll
    notifications in a row raises it exactly once. *)
Theorem raised_once_per_wait (event : PureInfiniteScrollEvent) :
  (∀ c l t h ns,
      once_per_wait event false
        (trace (run (new_PureInfiniteScroll (page c l) t h) ns)) = true)
  ∧ (∀ w k, Keyed.get (isWaitingEvents (self w)) event = true →
            emitted event (trace (run w (replicate k Scroll))) = emitted event (trace w)
            ∧ Keyed.get (isWaitingEvents (self (run w (replicate k Scroll)))) event = true)
  ∧ (∀ w k, near event w = true → armed event w = true →
            emitted event (trace (run w (replicate (S k) Scroll)))
            = S (emitted event (trace w))).
Proof.
  split; [|split].
  - intros c l t h ns. by apply (tracks_run event), tracks_new.
  - apply scrolls_while_waiting.
  - intros w k N A. simpl.
    destruct (scrolls_while_waiting event (handleScroll w) k) as [E _].
    + by rewrite handleScroll_waiting, N, A.
    + rewrite E, handleScroll_emitted, N, A. simpl. lia.
Qed.

Lemma raised_once_per_wait_witness :
  let w := new_PureInfiniteScroll (page {| scrollTop := 800; scrollHeight := 1000;
                                           clientHeight := 200 |} [])
             (Some 50) None in
  emitted ScrolledBottom (trace (run w (replicate 10 Scroll))) = 1%nat.
Proof.
  intros w.
  exact (proj2 (proj2 (raised_once_per_wait ScrolledBottom)) w 9%nat eq_refl eq_refl).
Defined.

(** C4.  In every world reached from the constructor by notifications, and
    for each event: at most one observer is connected for the event; the
    event waits exactly when the object holds an observer for it, and the
    observer it holds is the connected one.  When that observer is given a
    batch, either the first record makes the callback proceed, and then no
    observer is connected for the event, the object holds none and the event
    does not wait, or it does not, and then nothing has changed. *)
Theorem one_observer_per_event (c : HTMLElement) (l : list Node) (t : option Z)
    (h : option (list PureInfiniteScrollEvent)) (ns : list Notification)
    (event : PureInfiniteScrollEvent) :
  let w := run (new_PureInfiniteScroll (page c l) t h) ns in
  (∀ o1 o2, observers (document w) !! o1 = Some event →
            observers (document w) !! o2 = Some event → o1 = o2)
  ∧ (Keyed.get (isWaitingEvents (self w)) event = true
     ↔ Keyed.get (observerEvents (self w)) event ≠ None)
  ∧ (∀ o, Keyed.get (observerEvents (self w)) event = Some o
          ↔ observers (document w) !! o = Some event)
  ∧ (∀ o mutation rest,
        observers (document w) !! o = Some event →
        let w' := deliver o (mutation :: rest) w in
        if proceeds event w mutation
        then (∀ o', observers (document w') !! o' ≠ Some event)
             ∧ Keyed.get (observerEvents (self w')) event = None
             ∧ Keyed.get (isWaitingEvents (self w')) event = false
        else w' = w).
Proof.
  intros w.
  assert (consistent w) as C by apply consistent_run, consistent_new.
  split; [|split; [|split]].
  - intros o1 o2 H1 H2.
    pose proof (connected_held w C _ _ H1). pose proof (connected_held w C _ _ H2).
    congruence.
  - apply (waiting_held w C).
  - intros o. split; [apply (held_connected w C)|apply (connected_held w C)].
  - intros o mutation rest Ho w'. unfold w'.
    rewrite (deliver_cons o event) by done.
    destruct (proceeds event w mutation); [|done].
    pose proof (consistent_proceed event w C) as C'.
    assert (Keyed.get (observerEvents (self (proceed event w))) event = None) as N
      by (by rewrite proceed_observer, bool_decide_eq_true_2).
    split; [|split; [done|]].
    + intros o' H. pose proof (connected_held _ C' _ _ H). congruence.
    + by rewrite proceed_waiting, bool_decide_eq_true_2.
Qed.

Lemma one_observer_per_event_witness :
  let a := {| nodeRef := 1; nodeContent := 10 |} in
  let b := {| nodeRef := 2; nodeContent := 20 |} in
  let c := {| scrollTop := 0; scrollHeight := 1000; clientHeight := 200 |} in
  let w := run (new_PureInfiniteScroll (page c [a]) (Some 50) None)
             [Scroll; Scroll; Children [b; a]] in
  observers (document w) !! 0%nat = Some ScrolledTop
  ∧ Keyed.get (isWaitingEvents
                 (self (deliver 0 [{| addedNodes := [b]; removedNodes := [] |}] w)))
      ScrolledTop = false
  ∧ deliver 0 [{| addedNodes := [a]; removedNodes := [] |}] w = w.
Proof.
  intros a b c w. split; [reflexivity|].
  destruct (one_observer_per_event c [a] (Some 50) None
              [Scroll; Scroll; Children [b; a]] ScrolledTop) as (_ & _ & _ & H).
  split.
  - exact (proj2 (proj2 (H 0%nat {| addedNodes := [b]; removedNodes := [] |} [] eq_refl))).
  - exact (H 0%nat {| addedNodes := [a]; removedNodes := [] |} [] eq_refl).
Defined.

(** C3 (amended).  When an event is raised, of either kind, the pair
    [(scrollHeight, scrollTop)] of that moment is saved in the one saved
    position of the object.  When afterwards, with no event raised in
    between, the observer of the top event is given a batch whose first
    record is an insertion at the start, [scrollTop] is assigned the saved
    [scrollTop] plus the growth of [scrollHeight] since the save.  The saved
    values are those of the raise of the top event itself when no other event
    has been raised since: saved (1000, 100) and new scrollHeight 1200 give
    300. *)
Theorem adjustment_from_last_raise (event : PureInfiniteScrollEvent) (w : World)
    (ns : list Notification) (o : nat) (mutation : MutationRecord)
    (rest : list MutationRecord) :
  let w1 := emitEvent event w in
  let w2 := run w1 ns in
  let w3 := deliver o (mutation :: rest) w2 in
  armed event w = true →
  raised (trace w2) = raised (trace w1) →
  observers (document w2) !! o = Some ScrolledTop →
  mutationStart w2 mutation = true →
  previousScrollHeight (self w1) = scrollHeight (container (document w))
  ∧ previousScrollTop (self w1) = scrollTop (container (document w))
  ∧ scrollTop (container (document w3))
    = scrollTop (container (document w))
      + (scrollHeight (container (document w2)) - scrollHeight (container (document w)))
  ∧ writes (trace w3)
    = writes (trace w2)
      ++ [scrollTop (container (document w))
          + (scrollHeight (container (document w2)) - scrollHeight (container (document w)))].
Proof.
  intros w1 w2 w3 A R Ho Hs.
  destruct (emitEvent_previous event w A) as [Hh Ht]. fold w1 in Hh, Ht.
  destruct (run_previous w1 ns R) as [Hh2 Ht2]. fold w2 in Hh2, Ht2.
  split; [done|]. split; [done|].
  assert (w3 = proceed ScrolledTop w2) as ->.
  { unfold w3. rewrite (deliver_cons o ScrolledTop) by done.
    unfold proceeds. by rewrite Hs. }
  destruct (proceed_top_container w2) as (Hv & _ & _ & Hw).
  rewrite Hv, Hw, Hh2, Ht2, Hh, Ht. done.
Qed.

Lemma adjustment_from_last_raise_witness :
  let a := {| nodeRef := 1; nodeContent := 10 |} in
  let b := {| nodeRef := 2; nodeContent := 20 |} in
  let w := new_PureInfiniteScroll
             (page {| scrollTop := 100; scrollHeight := 1000; clientHeight := 200 |} [a])
             (Some 100) None in
  let ns := [Scroll; Children [b; a];
             Layout {| scrollTop := 100; scrollHeight := 1200; clientHeight := 200 |}] in
  let w3 := deliver 0 [{| addedNodes := [b]; removedNodes := [] |}]
              (run (emitEvent ScrolledTop w) ns) in
  scrollTop (container (document w3)) = 300.
Proof.
  intros a b w ns w3.
  exact (proj1 (proj2 (proj2
    (adjustment_from_last_raise ScrolledTop w ns 0
       {| addedNodes := [b]; removedNodes := [] |} []
       eq_refl eq_refl eq_refl eq_refl)))).
Defined.

(** C3, as stated, with another event raised in between: the top event is
    raised at (scrollHeight, scrollTop) = (1000, 100); the user scrolls to
    750 and the bottom event is raised, which saves (1000, 750) over it;
    content is put in front, scrollHeight becomes 1200, and the observer of
    the top event is told.  [scrollTop] is assigned 950 = 750 + (1200 - 1000),
    not 300 = 100 + (1200 - 1000). *)
Lemma adjustment_after_other_raise :
  let a := {| nodeRef := 1; nodeContent := 10 |} in
  let b := {| nodeRef := 2; nodeContent := 20 |} in
  let w0 := new_PureInfiniteScroll
              (page {| scrollTop := 100; scrollHeight := 1000; clientHeight := 200 |} [a])
              (Some 100) None in
  let w1 := run w0 [Scroll] in
  let w2 := run w1 [Layout {| scrollTop := 750; scrollHeight := 1000; clientHeight := 200 |};
                    Scroll] in
  let w3 := run w2 [Children [b; a];
                    Layout {| scrollTop := 750; scrollHeight := 1200; clientHeight := 200 |};
                    Mutations 0 [{| addedNodes := [b]; removedNodes := [] |}]] in
  raised (trace w1) = [ScrolledTop]
  ∧ (previousScrollHeight (self w1), previousScrollTop (self w1)) = (1000, 100)
  ∧ observers (document w2) !! 0%nat = Some ScrolledTop
  ∧ raised (trace w3) = [ScrolledTop; ScrolledBottom]
  ∧ Keyed.get (isWaitingEvents (self w3)) ScrolledTop = false
  ∧ scrollHeight (container (document w3)) = 1200
  ∧ writes (trace w3) = [950]
  ∧ scrollTop (container (document w3)) = 950
  ∧ scrollTop (container (document w3)) ≠ 100 + (1200 - 1000).
Proof.
  intros a b w0 w1 w2 w3.
  repeat (split; [reflexivity|]).
  vm_compute. discriminate.
Qed.

(** * Further properties of the class *)

(** ** Supporting facts *)

Lemma stopped_app event tr tr' :
  stopped event (tr ++ tr') = (stopped event tr + stopped event tr')%nat.
Proof. unfold stopped. by rewrite filter_app, length_app. Qed.

Lemma writes_length_app tr tr' :
  length (writes (tr ++ tr')) = (length (writes tr) + length (writes tr'))%nat.
Proof. by rewrite writes_app, length_app. Qed.

Lemma emitEvent_writes event w : writes (trace (emitEvent event w)) = writes (trace w).
Proof.
  rewrite emitEvent_trace, writes_app.
  destruct (armed event w); simpl; by rewrite app_nil_r.
Qed.

Lemma emitEvent_stopped event e w :
  stopped e (trace (emitEvent event w)) = stopped e (trace w).
Proof.
  rewrite emitEvent_trace, stopped_app.
  destruct (armed event w); unfold stopped; simpl; lia.
Qed.

Lemma emitEvent_emitted event e w :
  emitted e (trace (emitEvent event w))
  = (emitted e (trace w)
     + (if bool_decide (e = event) && armed event w then 1 else 0))%nat.
Proof.
  rewrite emitEvent_trace, emitted_app. f_equal.
  destruct (armed event w); [|by rewrite andb_false_r].
  rewrite andb_true_r. unfold emitted. simpl.
  destruct event, e; done.
Qed.

Lemma handleScroll_writes w : writes (trace (handleScroll w)) = writes (trace w).
Proof.
  rewrite handleScroll_unfold. simpl.
  destruct (isScrolledBottom w), (isScrolledTop w); by rewrite ?emitEvent_writes.
Qed.

Lemma handleScroll_stopped e w : stopped e (trace (handleScroll w)) = stopped e (trace w).
Proof.
  rewrite handleScroll_unfold. simpl.
  destruct (isScrolledBottom w), (isScrolledTop w); by rewrite ?emitEvent_stopped.
Qed.

Lemma handleScroll_childNodes w :
  childNodes (document (handleScroll w)) = childNodes (document w).
Proof.
  rewrite handleScroll_unfold. simpl.
  destruct (isScrolledBottom w), (isScrolledTop w); by rewrite ?emitEvent_childNodes.
Qed.

(** The calls of the block under the callback's [if], in order. *)
Lemma proceed_trace_exact event w :
  trace (proceed event w)
  = trace w
    ++ (match Keyed.get (observerEvents (self w)) event with
        | Some o => [Disconnect o]
        | None => []
        end)
    ++ [StopWaiting event]
    ++ (if bool_decide (event = ScrolledTop)
        then [AssignScrollTop
                (previousScrollTop (self w)
                 + (scrollHeight (container (document w)) - previousScrollHeight (self w)))]
        else []).
Proof.
  unfold proceed.
  destruct (Keyed.get (observerEvents (self w)) event), event; simpl;
    by rewrite <- ?app_assoc.
Qed.

Lemma proceed_stopped event e w :
  stopped e (trace (proceed event w))
  = (stopped e (trace w) + (if bool_decide (e = event) then 1 else 0))%nat.
Proof.
  rewrite proceed_trace_exact, stopped_app. f_equal.
  destruct (Keyed.get (observerEvents (self w)) event), event, e; done.
Qed.

Lemma proceed_writes_length event w :
  length (writes (trace (proceed event w)))
  = (length (writes (trace w))
     + (if bool_decide (event = ScrolledTop) then 1 else 0))%nat.
Proof.
  rewrite proceed_trace_exact, writes_length_app. f_equal.
  destruct (Keyed.get (observerEvents (self w)) event), event; done.
Qed.

Lemma proceed_emitted event e w : emitted e (trace (proceed event w)) = emitted e (trace w).
Proof. unfold emitted. by rewrite proceed_raised. Qed.

Lemma proceed_childNodes event w :
  childNodes (document (proceed event w)) = childNodes (document w).
Proof.
  unfold proceed.
  by destruct (Keyed.get (observerEvents (self w)) event), (bool_decide (event = ScrolledTop)).
Qed.

Lemma proceed_threshold event w : threshold (self (proceed event w)) = threshold (self w).
Proof.
  unfold proceed.
  by destruct (Keyed.get (observerEvents (self w)) event), (bool_decide (event = ScrolledTop)).
Qed.

(** ** The raises, the resets and the writes add up *)

Lemma balanced_new d t h : balanced (new_PureInfiniteScroll d t h).
Proof. split; [by intros []|done]. Qed.

Lemma balanced_emitEvent event w : balanced w → balanced (emitEvent event w).
Proof.
  intros [E W]. split.
  - intros e. rewrite emitEvent_emitted, emitEvent_stopped, emitEvent_waiting, E.
    destruct (bool_decide (e = event)) eqn:D; simpl; [|lia].
    apply bool_decide_eq_true in D as ->.
    destruct (armed event w) eqn:A; [|lia].
    unfold armed in A.
    destruct (Keyed.get (isWaitingEvents (self w)) event); [done|simpl; lia].
  - by rewrite emitEvent_writes, emitEvent_stopped.
Qed.

Lemma balanced_handleScroll w : balanced w → balanced (handleScroll w).
Proof.
  intros B. rewrite handleScroll_unfold. simpl.
  destruct (isScrolledBottom w), (isScrolledTop w); eauto using balanced_emitEvent.
Qed.

Lemma balanced_proceed event w :
  Keyed.get (isWaitingEvents (self w)) event = true →
  balanced w → balanced (proceed event w).
Proof.
  intros Hw [E W]. split.
  - intros e. rewrite proceed_emitted, proceed_stopped, proceed_waiting, E.
    case_bool_decide as D; [|lia]. subst. rewrite Hw. simpl. lia.
  - rewrite proceed_writes_length, proceed_stopped, W.
    f_equal. destruct event; done.
Qed.

Lemma balanced_step w n : consistent w → balanced w → balanced (step w n).
Proof.
  intros C B. destruct n; simpl; try done.
  - by apply balanced_handleScroll.
  - unfold deliver. destruct (observers (document w) !! o) as [e|] eqn:Ho; [|done].
    unfold callback. destruct (index mutations 0) as [mutation|]; [|done].
    destruct (proceeds e w mutation); [|done].
    apply balanced_proceed; [|done].
    apply (waiting_held w C). by rewrite (connected_held w C _ _ Ho).
Qed.

Lemma balanced_run w ns : consistent w → balanced w → balanced (run w ns).
Proof.
  revert w. induction ns as [|n ns IH]; intros w C B; [done|].
  apply IH; [by apply consistent_step|by apply balanced_step].
Qed.

Lemma index_head {A} (l : list A) : index l 0 = head l.
Proof. unfold index. simpl. by destruct l. Qed.

Lemma index_last {A} (l : list A) : index l (Z.of_nat (length l) - 1) = last l.
Proof.
  unfold index. destruct l as [|a l]; [done|].
  rewrite bool_decide_eq_false_2 by (simpl; lia).
  rewrite last_lookup. f_equal. simpl. lia.
Qed.


Lemma deliver_proceeds o event mutation rest w :
  observers (document w) !! o = Some event →
  proceeds event w mutation = true →
  deliver o (mutation :: rest) w = proceed event w.
Proof. intros Ho P. by rewrite (deliver_cons o event), P. Qed.

Lemma step_no_mutations event w n :
  no_mutations n →
  Keyed.get (isWaitingEvents (self w)) event = true →
  Keyed.get (isWaitingEvents (self (step w n))) event = true
  ∧ emitted event (trace (step w n)) = emitted event (trace w)
  ∧ Keyed.get (observerEvents (self (step w n))) event
    = Keyed.get (observerEvents (self w)) event.
Proof.
  intros N W. destruct n; simpl in *; try done.
  assert (near event w && armed event w = false) as A
    by (unfold armed; rewrite W; apply andb_false_r).
  rewrite handleScroll_waiting, handleScroll_emitted, A, W.
  split; [done|]. split; [lia|]. by apply handleScroll_observer.
Qed.

Lemma emitEvent_observers_old event w o :
  (o < created (document w))%nat →
  observers (document (emitEvent event w)) !! o = observers (document w) !! o
  ∧ (created (document w) ≤ created (document (emitEvent event w)))%nat.
Proof.
  intros H. destruct (armed event w) eqn:A.
  - rewrite emitEvent_armed by done. simpl.
    rewrite lookup_insert_ne by lia. split; [done|lia].
  - by rewrite emitEvent_idle.
Qed.

Lemma handleScroll_observers_old w o :
  (o < created (document w))%nat →
  observers (document (handleScroll w)) !! o = observers (document w) !! o.
Proof.
  intros H. rewrite handleScroll_unfold. simpl.
  destruct (isScrolledBottom w), (isScrolledTop w); try done.
  - destruct (emitEvent_observers_old ScrolledBottom w o H) as [<- L].
    apply emitEvent_observers_old. lia.
  - by apply emitEvent_observers_old.
  - by apply emitEvent_observers_old.
Qed.

(** ** The properties *)

(** X1.  [isScrolledBottom] and [isScrolledTop] can only be true together
    when the scrollable range [scrollHeight - clientHeight] is at most twice
    the threshold; when the range is larger, one pass of [handleScroll]
    raises at most one event. *)
Theorem both_near_needs_short_range (w : World) :
  let c := container (document w) in
  (isScrolledBottom w = true → isScrolledTop w = true →
   scrollHeight c - clientHeight c ≤ 2 * threshold (self w))
  ∧ (2 * threshold (self w) < scrollHeight c - clientHeight c →
     ∃ l, raised (trace (handleScroll w)) = raised (trace w) ++ l ∧ (length l ≤ 1)%nat).
Proof.
  simpl. unfold isScrolledBottom, isScrolledTop.
  split.
  - rewrite !bool_decide_eq_true. lia.
  - intros H. eexists. split; [apply handleScroll_raised|].
    unfold isScrolledBottom, isScrolledTop.
    do 2 case_bool_decide; simpl; try lia;
      destruct (armed ScrolledBottom w), (armed ScrolledTop w); simpl; lia.
Qed.

Lemma both_near_needs_short_range_witness :
  let w := new_PureInfiniteScroll (page {| scrollTop := 0; scrollHeight := 1000;
                                           clientHeight := 200 |} [])
             (Some 50) None in
  ∃ l, raised (trace (handleScroll w)) = raised (trace w) ++ l ∧ (length l ≤ 1)%nat.
Proof.
  intros w. apply (proj2 (both_near_needs_short_range w)). simpl. lia.
Defined.

(** X2.  [handleScroll] only reads the page: the geometry of the container
    and the children of the content container are as before, [threshold] and
    [handleEvents] are as before, [scrollTop] is not assigned, no waiting
    flag is reset, and an event that waits still waits. *)
Theorem handleScroll_reads_the_page (w : World) :
  container (document (handleScroll w)) = container (document w)
  ∧ childNodes (document (handleScroll w)) = childNodes (document w)
  ∧ threshold (self (handleScroll w)) = threshold (self w)
  ∧ handleEvents (self (handleScroll w)) = handleEvents (self w)
  ∧ writes (trace (handleScroll w)) = writes (trace w)
  ∧ ∀ event,
      stopped event (trace (handleScroll w)) = stopped event (trace w)
      ∧ (Keyed.get (isWaitingEvents (self w)) event = true →
         Keyed.get (isWaitingEvents (self (handleScroll w))) event = true).
Proof.
  rewrite handleScroll_container, handleScroll_childNodes, handleScroll_threshold,
    handleScroll_handleEvents, handleScroll_writes.
  repeat (split; [done|]). intros event.
  rewrite handleScroll_stopped, handleScroll_waiting. split; [done|].
  intros ->. by destruct (near event w && armed event w).
Qed.

Lemma handleScroll_reads_the_page_witness :
  let w := emitEvent ScrolledTop
             (new_PureInfiniteScroll (page {| scrollTop := 0; scrollHeight := 1000;
                                              clientHeight := 200 |} [])
                None None) in
  Keyed.get (isWaitingEvents (self (handleScroll w))) ScrolledTop = true.
Proof.
  intros w.
  destruct (handleScroll_reads_the_page w) as (_ & _ & _ & _ & _ & H).
  exact (proj2 (H ScrolledTop) eq_refl).
Defined.





(** X5.  When the children of the content container are exactly the nodes
    the record has added (the container was empty before), the record is an
    insertion at the start and at the end at once: the callback proceeds for
    the top event and for the bottom event alike. *)
Theorem first_content_counts_for_both (event : PureInfiniteScrollEvent) (w : World)
    (mutation : MutationRecord) :
  childNodes (document w) = addedNodes mutation →
  addedNodes mutation ≠ [] →
  mutationStart w mutation = true
  ∧ mutationEnd w mutation = true
  ∧ proceeds event w mutation = true.
Proof.
  intros Hc Hn.
  assert (mutationStart w mutation = true ∧ mutationEnd w mutation = true) as [S E].
  { unfold mutationStart, mutationEnd, firstChild, lastChild.
    rewrite index_head, index_last, Hc.
    destruct (addedNodes mutation) as [|a l] eqn:Ha; [done|].
    split.
    - simpl. by apply bool_decide_eq_true_2.
    - destruct (last (a :: l)) as [n|] eqn:L.
      + simpl. by apply bool_decide_eq_true_2.
      + by apply last_None in L. }
  unfold proceeds. rewrite S, E. by destruct event.
Qed.

Lemma first_content_counts_for_both_witness :
  let a := {| nodeRef := 1; nodeContent := 10 |} in
  let w := new_PureInfiniteScroll (page {| scrollTop := 0; scrollHeight := 1000;
                                           clientHeight := 200 |} [a])
             None None in
  proceeds ScrolledTop w {| addedNodes := [a]; removedNodes := [] |} = true.
Proof.
  intros a w.
  exact (proj2 (proj2 (first_content_counts_for_both ScrolledTop w
                         {| addedNodes := [a]; removedNodes := [] |}
                         eq_refl ltac:(discriminate)))).
Defined.

(** X6.  [handleContentChanges] puts the container as far from the end of
    its content as the saved position was: afterwards [scrollHeight -
    scrollTop] equals [previousScrollHeight - previousScrollTop].  The
    [scrollTop] it finds plays no part, so scrolling done since the save is
    undone; when [scrollHeight] has not changed since the save, [scrollTop]
    is put back to [previousScrollTop]; and calling it again changes nothing
    more on the page or in the object. *)
Theorem handleContentChanges_keeps_distance_to_end (w : World) :
  let w' := handleContentChanges w in
  scrollHeight (container (document w')) - scrollTop (container (document w'))
  = previousScrollHeight (self w) - previousScrollTop (self w)
  ∧ (∀ v, document (handleContentChanges
                      (relayout {| scrollTop := v;
                                   scrollHeight := scrollHeight (container (document w));
                                   clientHeight := clientHeight (container (document w)) |}
                                w))
          = document w')
  ∧ (scrollHeight (container (document w)) = previousScrollHeight (self w) →
     scrollTop (container (document w')) = previousScrollTop (self w))
  ∧ document (handleContentChanges w') = document w'
  ∧ self (handleContentChanges w') = self w.
Proof.
  unfold handleContentChanges. simpl.
  split; [lia|]. split; [done|]. split; [intros ->; lia|done].
Qed.

Lemma handleContentChanges_keeps_distance_to_end_witness :
  let w := assign_previous 1000 100
             (new_PureInfiniteScroll (page {| scrollTop := 640; scrollHeight := 1000;
                                              clientHeight := 200 |} [])
                None None) in
  scrollTop (container (document (handleContentChanges w))) = 100.
Proof.
  intros w.
  exact (proj1 (proj2 (proj2 (handleContentChanges_keeps_distance_to_end w))) eq_refl).
Defined.

(** X7.  In every world reached from the constructor, each event has been
    raised once for every time the callback of its observer has proceeded,
    and once more if it is waiting; and [scrollTop] has been assigned exactly
    once for every time the callback of the top event's observer has
    proceeded, so never more often than the top event was raised. *)
Theorem raises_resets_and_writes_add_up (c : HTMLElement) (l : list Node) (t : option Z)
    (h : option (list PureInfiniteScrollEvent)) (ns : list Notification) :
  let w := run (new_PureInfiniteScroll (page c l) t h) ns in
  (∀ event,
      emitted event (trace w)
      = (stopped event (trace w)
         + Nat.b2n (Keyed.get (isWaitingEvents (self w)) event))%nat)
  ∧ length (writes (trace w)) = stopped ScrolledTop (trace w)
  ∧ (length (writes (trace w)) ≤ emitted ScrolledTop (trace w))%nat.
Proof.
  intros w.
  destruct (balanced_run (new_PureInfiniteScroll (page c l) t h) ns) as [E W];
    [apply consistent_new|apply balanced_new|].
  fold w in E, W. split; [done|]. split; [done|].
  rewrite W, (E ScrolledTop). lia.
Qed.

(** X8.  While the top event is not in [handleEvents], the object never
    assigns [scrollTop]: over every run from the constructor in which no
    assignment to [handleEvents] brings the top event in, the trace holds no
    write, whatever is scrolled, laid out or inserted. *)
Theorem bottom_only_never_writes (c : HTMLElement) (l : list Node) (t : option Z)
    (h : list PureInfiniteScrollEvent) (ns : list Notification) :
  ScrolledTop ∉ h →
  Forall (keeps_out ScrolledTop) ns →
  writes (trace (run (new_PureInfiniteScroll (page c l) t (Some h)) ns)) = [].
Proof.
  intros H F.
  destruct (balanced_run (new_PureInfiniteScroll (page c l) t (Some h)) ns) as [E W];
    [apply consistent_new|apply balanced_new|].
  pose proof (E ScrolledTop) as ET.
  rewrite run_keeps_out in ET by done.
  apply length_zero_iff_nil. rewrite W.
  change (emitted ScrolledTop (trace (new_PureInfiniteScroll (page c l) t (Some h))))
    with 0%nat in ET.
  lia.
Qed.

Lemma bottom_only_never_writes_witness :
  let a := {| nodeRef := 1; nodeContent := 10 |} in
  let b := {| nodeRef := 2; nodeContent := 20 |} in
  writes (trace (run (new_PureInfiniteScroll
                        (page {| scrollTop := 0; scrollHeight := 100; clientHeight := 200 |}
                              [a])
                        (Some 50) (Some [ScrolledBottom]))
                   [Scroll; Children [b; a; b]; Mutations 0
                      [{| addedNodes := [b]; removedNodes := [] |}]; Scroll])) = [].
Proof.
  intros a b.
  apply bottom_only_never_writes; [compute_done|repeat constructor].
Defined.

(** X9.  An event that waits stays waiting, and is not raised again, as long
    as no batch of mutation records is delivered: scrolling, changes of the
    geometry or of the children, and assignments to [threshold] and
    [handleEvents] do not end the wait, however many there are. *)
Theorem wait_ends_only_by_mutations (event : PureInfiniteScrollEvent) (w : World)
    (ns : list Notification) :
  Keyed.get (isWaitingEvents (self w)) event = true →
  Forall no_mutations ns →
  Keyed.get (isWaitingEvents (self (run w ns))) event = true
  ∧ emitted event (trace (run w ns)) = emitted event (trace w)
  ∧ Keyed.get (observerEvents (self (run w ns))) event
    = Keyed.get (observerEvents (self w)) event.
Proof.
  intros W F. revert w W. induction F as [|n ns N F IH]; intros w W; [done|].
  destruct (step_no_mutations event w n N W) as (W' & E' & O').
  destruct (IH (step w n) W') as (W'' & E'' & O'').
  simpl. by rewrite E'', E', O'', O'.
Qed.

Lemma wait_ends_only_by_mutations_witness :
  let w := emitEvent ScrolledBottom
             (new_PureInfiniteScroll (page {| scrollTop := 800; scrollHeight := 1000;
                                              clientHeight := 200 |} [])
                None None) in
  let ns := [Scroll; Layout {| scrollTop := 0; scrollHeight := 5000; clientHeight := 200 |};
             Layout {| scrollTop := 4800; scrollHeight := 5000; clientHeight := 200 |};
             Scroll; SetThreshold 4000; Scroll] in
  emitted ScrolledBottom (trace (run w ns)) = 1%nat.
Proof.
  intros w ns.
  exact (proj1 (proj2 (wait_ends_only_by_mutations ScrolledBottom w ns eq_refl
                         ltac:(repeat constructor)))).
Defined.

(** X10.  After the wait has ended the event can be raised again: in a world
    reached from the constructor, once the observer of an event has been
    given a batch that makes the callback proceed, the next scroll
    notification at a geometry near the event's boundary raises the event
    once more, if it is in [handleEvents], and connects a new observer for
    it. *)
Theorem raised_again_after_content (c : HTMLElement) (l : list Node) (t : option Z)
    (h : option (list PureInfiniteScrollEvent)) (ns : list Notification)
    (event : PureInfiniteScrollEvent) (o : nat) (mutation : MutationRecord)
    (rest : list MutationRecord) (g : HTMLElement) :
  let w := run (new_PureInfiniteScroll (page c l) t h) ns in
  let w' := relayout g (deliver o (mutation :: rest) w) in
  observers (document w) !! o = Some event →
  proceeds event w mutation = true →
  event ∈ handleEvents (self w) →
  near event w' = true →
  emitted event (trace (handleScroll w')) = S (emitted event (trace w))
  ∧ Keyed.get (isWaitingEvents (self (handleScroll w'))) event = true
  ∧ ∃ o', o' ≠ o
          ∧ Keyed.get (observerEvents (self (handleScroll w'))) event = Some o'
          ∧ observers (document (handleScroll w')) !! o' = Some event
          ∧ observers (document (handleScroll w')) !! o = None.
Proof.
  intros w w' Ho P Hin N.
  assert (consistent w) as C by apply consistent_run, consistent_new.
  assert (w' = relayout g (proceed event w)) as Hw'
    by (unfold w'; by rewrite (deliver_proceeds o event)).
  assert (consistent w') as C'.
  { rewrite Hw'. by destruct (consistent_proceed event w C). }
  assert (armed event w' = true) as A.
  { rewrite Hw'. unfold armed. simpl.
    rewrite proceed_waiting, proceed_handleEvents, bool_decide_eq_true_2 by done.
    by apply bool_decide_eq_true_2. }
  assert (emitted event (trace w') = emitted event (trace w)) as E
    by (rewrite Hw'; simpl; apply proceed_emitted).
  pose proof (consistent_handleScroll w' C') as C''.
  assert (observers (document (handleScroll w')) !! o = None) as Hgone.
  { rewrite handleScroll_observers_old.
    - rewrite Hw'. simpl. rewrite proceed_observers, (connected_held w C _ _ Ho).
      apply lookup_delete_eq.
    - rewrite Hw'. simpl. rewrite proceed_created.
      destruct (decide (o < created (document w))%nat); [done|].
      rewrite (fresh_free w C) in Ho by lia. done. }
  assert (Keyed.get (isWaitingEvents (self (handleScroll w'))) event = true) as Wt
    by (by rewrite handleScroll_waiting, N, A).
  rewrite handleScroll_emitted, N, A, E. simpl.
  split; [lia|]. split; [done|].
  destruct (Keyed.get (observerEvents (self (handleScroll w'))) event) as [o'|] eqn:S.
  - pose proof (held_connected _ C'' _ _ S) as Hc.
    exists o'. split; [intros ->; congruence|done].
  - by apply (waiting_held _ C'') in Wt.
Qed.

Lemma raised_again_after_content_witness :
  let a := {| nodeRef := 1; nodeContent := 10 |} in
  let b := {| nodeRef := 2; nodeContent := 20 |} in
  let w := run (new_PureInfiniteScroll
                  (page {| scrollTop := 800; scrollHeight := 1000; clientHeight := 200 |} [a])
                  (Some 50) None)
             [Scroll; Children [a; b]] in
  let w' := relayout {| scrollTop := 1000; scrollHeight := 1200; clientHeight := 200 |}
              (deliver 0 [{| addedNodes := [b]; removedNodes := [] |}] w) in
  emitted ScrolledBottom (trace (handleScroll w')) = 2%nat.
Proof.
  intros a b w w'.
  exact (proj1 (raised_again_after_content
                  {| scrollTop := 800; scrollHeight := 1000; clientHeight := 200 |} [a]
                  (Some 50) None [Scroll; Children [a; b]] ScrolledBottom 0
                  {| addedNodes := [b]; removedNodes := [] |} []
                  {| scrollTop := 1000; scrollHeight := 1200; clientHeight := 200 |}
                  eq_refl eq_refl ltac:(compute_done) eq_refl)).
Defined.

(** X11.  The callback disconnects the observer that the object holds, not
    the observer that is called.  When the waiting flag of an event is reset
    from outside while its observer is connected, as the tests do, the next
    raise connects a second observer for the event and holds that one; the
    first stays connected, and when it is given a batch that makes the
    callback proceed, it is the second that is disconnected while the first
    remains connected. *)
Theorem reset_from_outside_leaves_observer (c : HTMLElement) (l : list Node)
    (t : option Z) (h : option (list PureInfiniteScrollEvent)) (ns : list Notification)
    (event : PureInfiniteScrollEvent) (o : nat) :
  let w := run (new_PureInfiniteScroll (page c l) t h) ns in
  let o' := created (document w) in
  let w1 := emitEvent event (assign_isWaitingEvents event false w) in
  Keyed.get (observerEvents (self w)) event = Some o →
  event ∈ handleEvents (self w) →
  emitted event (trace w1) = S (emitted event (trace w))
  ∧ o ≠ o'
  ∧ observers (document w1) !! o = Some event
  ∧ observers (document w1) !! o' = Some event
  ∧ Keyed.get (observerEvents (self w1)) event = Some o'
  ∧ ∀ mutation rest,
      proceeds event w1 mutation = true →
      let w2 := deliver o (mutation :: rest) w1 in
      observers (document w2) !! o = Some event
      ∧ observers (document w2) !! o' = None
      ∧ Keyed.get (observerEvents (self w2)) event = None
      ∧ Keyed.get (isWaitingEvents (self w2)) event = false.
Proof.
  intros w o' w1 Hs Hin.
  assert (consistent w) as C by apply consistent_run, consistent_new.
  pose proof (held_connected w C _ _ Hs) as Ho.
  assert (o ≠ o') as Hne.
  { intros ->. unfold o' in Ho. by rewrite (fresh_free w C) in Ho. }
  assert (armed event (assign_isWaitingEvents event false w) = true) as A.
  { unfold armed. simpl. rewrite Keyed_get_put_same. by apply bool_decide_eq_true_2. }
  assert (observers (document w1) = <[o' := event]> (observers (document w))) as Hobs
    by (unfold w1; by rewrite emitEvent_armed).
  assert (Keyed.get (observerEvents (self w1)) event = Some o') as Hs1.
  { unfold w1. rewrite emitEvent_observer, A, bool_decide_eq_true_2 by done. done. }
  assert (observers (document w1) !! o = Some event) as Ho1
    by (by rewrite Hobs, lookup_insert_ne).
  split.
  { unfold w1. rewrite emitEvent_emitted, A, bool_decide_eq_true_2 by done.
    simpl. lia. }
  split; [done|]. split; [done|].
  split; [by rewrite Hobs, lookup_insert_eq|]. split; [done|].
  intros mutation rest P w2. unfold w2.
  rewrite (deliver_proceeds o event) by done.
  rewrite proceed_observers, proceed_observer, proceed_waiting, Hs1.
  rewrite lookup_delete_ne by done. rewrite lookup_delete_eq.
  by rewrite bool_decide_eq_true_2.
Qed.

Lemma reset_from_outside_leaves_observer_witness :
  let c := {| scrollTop := 800; scrollHeight := 1000; clientHeight := 200 |} in
  let w := run (new_PureInfiniteScroll (page c []) (Some 50) None) [Scroll] in
  let w1 := emitEvent ScrolledBottom (assign_isWaitingEvents ScrolledBottom false w) in
  observers (document w1) !! 0%nat = Some ScrolledBottom
  ∧ observers (document w1) !! 1%nat = Some ScrolledBottom.
Proof.
  intros c w w1.
  destruct (reset_from_outside_leaves_observer c [] (Some 50) None [Scroll]
              ScrolledBottom 0 eq_refl ltac:(compute_done))
    as (_ & _ & H0 & H1 & _).
  split; [exact H0|exact H1].
Defined.

(** X12.  The callback of one event's observer leaves the other event alone:
    in a world reached from the constructor, whatever batch the observer of
    an event is given, the waiting flag of the other event, the observer the
    object holds for it and the connection of that observer are unchanged,
    and so are [threshold], [handleEvents], the saved scroll position and
    what has been raised. *)
Theorem callback_leaves_other_event (c : HTMLElement) (l : list Node) (t : option Z)
    (h : option (list PureInfiniteScrollEvent)) (ns : list Notification)
    (event : PureInfiniteScrollEvent) (o : nat) (mutations : list MutationRecord) :
  let w := run (new_PureInfiniteScroll (page c l) t h) ns in
  let w' := deliver o mutations w in
  observers (document w) !! o = Some event →
  Keyed.get (isWaitingEvents (self w')) (opposite event)
  = Keyed.get (isWaitingEvents (self w)) (opposite event)
  ∧ Keyed.get (observerEvents (self w')) (opposite event)
    = Keyed.get (observerEvents (self w)) (opposite event)
  ∧ (∀ o', observers (document w) !! o' = Some (opposite event) →
           observers (document w') !! o' = Some (opposite event))
  ∧ threshold (self w') = threshold (self w)
  ∧ handleEvents (self w') = handleEvents (self w)
  ∧ previousScrollHeight (self w') = previousScrollHeight (self w)
  ∧ previousScrollTop (self w') = previousScrollTop (self w)
  ∧ raised (trace w') = raised (trace w).
Proof.
  intros w w' Ho.
  assert (consistent w) as C by apply consistent_run, consistent_new.
  unfold w', deliver. rewrite Ho.
  unfold callback. destruct (index mutations 0) as [mutation|]; [|done].
  destruct (proceeds event w mutation); [|done].
  rewrite proceed_waiting, proceed_observer, proceed_observers, proceed_threshold,
    proceed_handleEvents, proceed_raised.
  rewrite (bool_decide_eq_false_2 _ (opposite_ne event)).
  destruct (proceed_previous event w) as [-> ->].
  repeat (split; [done|]). split; [|done].
  intros o' Ho'. rewrite (connected_held w C _ _ Ho).
  rewrite lookup_delete_ne; [done|].
  intros <-. rewrite Ho in Ho'. injection Ho' as Heq.
  by apply (opposite_ne event).
Qed.

Lemma callback_leaves_other_event_witness :
  let a := {| nodeRef := 1; nodeContent := 10 |} in
  let b := {| nodeRef := 2; nodeContent := 20 |} in
  let c := {| scrollTop := 0; scrollHeight := 100; clientHeight := 200 |} in
  let w := run (new_PureInfiniteScroll (page c [a]) (Some 50) None)
             [Scroll; Children [b; a]] in
  let w' := deliver 1 [{| addedNodes := [b]; removedNodes := [] |}] w in
  raised (trace w) = [ScrolledBottom; ScrolledTop]
  ∧ Keyed.get (isWaitingEvents (self w')) ScrolledTop = false
  ∧ Keyed.get (isWaitingEvents (self w')) ScrolledBottom = true
  ∧ observers (document w') !! 0%nat = Some ScrolledBottom.
Proof.
  intros a b c w w'. split; [reflexivity|]. split; [reflexivity|].
  destruct (callback_leaves_other_event c [a] (Some 50) None [Scroll; Children [b; a]]
              ScrolledTop 1 [{| addedNodes := [b]; removedNodes := [] |}] eq_refl)
    as (Hw & _ & Hc & _).
  split.
  - etransitivity; [exact Hw|reflexivity].
  - exact (Hc 0%nat eq_refl).
Defined.

(** ** Counting the connected observers *)

Lemma counted_emitEvent event w :
  consistent w →
  size (observers (document w)) = waits w →
  size (observers (document (emitEvent event w))) = waits (emitEvent event w).
Proof.
  intros C H. destruct (armed event w) eqn:A; [|by rewrite emitEvent_idle].
  unfold waits. rewrite !emitEvent_waiting, A, !andb_true_r.
  rewrite emitEvent_armed by done. simpl.
  rewrite map_size_insert_None by (by apply (fresh_free w C)).
  rewrite H. unfold waits. unfold armed in A.
  destruct event; simpl;
    destruct (Keyed.get (isWaitingEvents (self w)) ScrolledBottom),
             (Keyed.get (isWaitingEvents (self w)) ScrolledTop); done.
Qed.

Lemma counted_proceed o event w :
  consistent w →
  observers (document w) !! o = Some event →
  size (observers (document w)) = waits w →
  size (observers (document (proceed event w))) = waits (proceed event w).
Proof.
  intros C Ho H.
  pose proof (connected_held w C _ _ Ho) as Hs.
  assert (Keyed.get (isWaitingEvents (self w)) event = true) as W
    by (apply (waiting_held w C); congruence).
  unfold waits. rewrite !proceed_waiting, proceed_observers, Hs.
  rewrite map_size_delete_Some by done. rewrite H. unfold waits.
  destruct event; simpl; rewrite W; simpl; lia.
Qed.

Lemma counted_step w n :
  consistent w →
  size (observers (document w)) = waits w →
  size (observers (document (step w n))) = waits (step w n).
Proof.
  intros C H. destruct n; simpl; try done.
  - rewrite handleScroll_unfold. simpl.
    destruct (isScrolledBottom w), (isScrolledTop w);
      eauto using counted_emitEvent, consistent_emitEvent.
  - unfold deliver. destruct (observers (document w) !! o) as [e|] eqn:Ho; [|done].
    unfold callback. destruct (index mutations 0) as [mutation|]; [|done].
    destruct (proceeds e w mutation); [|done].
    by apply (counted_proceed o).
Qed.

Lemma counted_run w ns :
  consistent w →
  size (observers (document w)) = waits w →
  size (observers (document (run w ns))) = waits (run w ns).
Proof.
  revert w. induction ns as [|n ns IH]; intros w C H; [done|].
  apply IH; [by apply consistent_step|by apply counted_step].
Qed.

(** X13.  No observer is left behind: in every world reached from the
    constructor, the number of connected observers is the number of events
    that are waiting, hence at most two, and none when nothing waits. *)
Theorem observers_as_many_as_waits (c : HTMLElement) (l : list Node) (t : option Z)
    (h : option (list PureInfiniteScrollEvent)) (ns : list Notification) :
  let w := run (new_PureInfiniteScroll (page c l) t h) ns in
  size (observers (document w)) = waits w
  ∧ (size (observers (document w)) ≤ 2)%nat
  ∧ (Keyed.get (isWaitingEvents (self w)) ScrolledBottom = false →
     Keyed.get (isWaitingEvents (self w)) ScrolledTop = false →
     observers (document w) = ∅).
Proof.
  intros w.
  assert (size (observers (document w)) = waits w) as H
    by (apply counted_run; [apply consistent_new|done]).
  split; [done|]. rewrite H. unfold waits. split.
  - by destruct (Keyed.get _ ScrolledBottom), (Keyed.get _ ScrolledTop); simpl; lia.
  - intros B T. apply map_size_empty_inv. rewrite H. unfold waits. by rewrite B, T.
Qed.

Lemma observers_as_many_as_waits_witness :
  let a := {| nodeRef := 1; nodeContent := 10 |} in
  let b := {| nodeRef := 2; nodeContent := 20 |} in
  let c := {| scrollTop := 800; scrollHeight := 1000; clientHeight := 200 |} in
  let w := run (new_PureInfiniteScroll (page c [a]) (Some 50) None)
             [Scroll; Scroll; Children [a; b];
              Mutations 0 [{| addedNodes := [b]; removedNodes := [] |}]] in
  observers (document w) = ∅.
Proof.
  intros a b c w.
  exact (proj2 (proj2 (observers_as_many_as_waits c [a] (Some 50) None
                         [Scroll; Scroll; Children [a; b];
                          Mutations 0 [{| addedNodes := [b]; removedNodes := [] |}]]))
           eq_refl eq_refl).
Defined.

(** X14.  Whether the top boundary is still near after the adjustment: when
    the top event is raised, nothing else is raised until the observer of
    the top event is given an insertion at the start, and [scrollHeight] has
    grown by [d] since the raise, then afterwards [isScrolledTop] is true
    exactly when the [scrollTop] of the raise plus [d] is at most the
    threshold.  With [scrollTop] not negative at the raise, a growth larger
    than the threshold takes the container out of reach of the top
    boundary. *)
Theorem near_top_after_adjustment (w : World) (ns : list Notification) (o : nat)
    (mutation : MutationRecord) (rest : list MutationRecord) :
  let w1 := emitEvent ScrolledTop w in
  let w2 := run w1 ns in
  let w3 := deliver o (mutation :: rest) w2 in
  let d := scrollHeight (container (document w2)) - scrollHeight (container (document w)) in
  armed ScrolledTop w = true →
  raised (trace w2) = raised (trace w1) →
  observers (document w2) !! o = Some ScrolledTop →
  mutationStart w2 mutation = true →
  (isScrolledTop w3 = true
   ↔ scrollTop (container (document w)) + d ≤ threshold (self w2))
  ∧ (0 ≤ scrollTop (container (document w)) → threshold (self w2) < d →
     isScrolledTop w3 = false).
Proof.
  intros w1 w2 w3 d A R Ho Hs.
  destruct (emitEvent_previous ScrolledTop w A) as [Hh Ht]. fold w1 in Hh, Ht.
  destruct (run_previous w1 ns R) as [Hh2 Ht2]. fold w2 in Hh2, Ht2.
  assert (w3 = proceed ScrolledTop w2) as ->.
  { unfold w3. rewrite (deliver_proceeds o ScrolledTop); [done|done|].
    unfold proceeds. by rewrite Hs. }
  destruct (proceed_top_container w2) as (Hv & _ & _ & _).
  unfold isScrolledTop. rewrite proceed_threshold, Hv, Hh2, Ht2, Hh, Ht.
  fold d. split.
  - apply bool_decide_eq_true.
  - intros H0 Hd. apply bool_decide_eq_false_2. lia.
Qed.

Lemma near_top_after_adjustment_witness :
  let a := {| nodeRef := 1; nodeContent := 10 |} in
  let b := {| nodeRef := 2; nodeContent := 20 |} in
  let w := new_PureInfiniteScroll
             (page {| scrollTop := 0; scrollHeight := 1000; clientHeight := 200 |} [a])
             (Some 50) None in
  let ns := [Children [b; a];
             Layout {| scrollTop := 0; scrollHeight := 1300; clientHeight := 200 |}] in
  isScrolledTop (deliver 0 [{| addedNodes := [b]; removedNodes := [] |}]
                   (run (emitEvent ScrolledTop w) ns)) = false.
Proof.
  intros a b w ns.
  apply (proj2 (near_top_after_adjustment w ns 0
                  {| addedNodes := [b]; removedNodes := [] |} []
                  eq_refl eq_refl eq_refl eq_refl)); simpl; lia.
Defined.
